(** * 2dto3dreconstruction: the geometric registration core

    A shallow embedding of the numeric core of [src/utils/utils.py] and
    [src/karl-homo-toy-cars.py]: the depth-to-point-cloud converter, the two
    coordinate lookups, the nearest-match helper, the transform applicators and
    the two module-level loops that build and apply the pairwise transforms.

    Conventions of the embedding.
    - A numpy array of rows is a [list] of tuples: a point row [v] is a triple
      with columns [c0 v], [c1 v], [c2 v] (Python's [v[0]], [v[1]], [v[2]]) and
      a keypoint row [i] is a pair with columns [i.1], [i.2] ([i[0]], [i[1]]).
    - Integer arrays hold [Z]; [astype(np.int16)] and arithmetic on an [int16]
      array wrap around, written out by [int16].
    - [dtype=float] arithmetic is idealised as exact arithmetic on canonical
      rationals [Qc]; division agrees with the source only for a nonzero
      divisor (numpy yields inf/nan there, [Qc] yields 0).
    - A Python call that may raise is a value of [Py.result]. *)

From Stdlib Require Import ZArith QArith Qcanon Lia.
From stdpp Require Import base numbers decidable option list.

(** ** Python outcomes *)

Module Py.

Inductive exn : Type := IndexError | ValueError.

Inductive result (A : Type) : Type :=
  | Return (a : A)
  | Raise (e : exn).
Arguments Return {A} a.
Arguments Raise {A} e.

#[global] Instance exn_eq_dec : EqDecision exn.
Proof. solve_decision. Defined.

#[global] Instance result_eq_dec {A} `{EqDecision A} : EqDecision (result A).
Proof. solve_decision. Defined.

#[global] Instance result_ret : MRet result := @Return.

#[global] Instance result_bind : MBind result := λ A B f m,
  match m with
  | Return a => f a
  | Raise e => Raise e
  end.

(** [l[n]] for a non-negative index: [IndexError] out of range. *)
Definition getitem {A} (l : list A) (n : nat) : result A :=
  match l !! n with
  | Some a => Return a
  | None => Raise IndexError
  end.

(** [for x in xs: acc = body(acc, x)] where the body may raise. *)
Fixpoint for_each {A S} (body : S → A → result S) (xs : list A) (acc : S)
  : result S :=
  match xs with
  | [] => Return acc
  | x :: rest => acc' ← body acc x; for_each body rest acc'
  end.

(** The loop [for v in vs: if test(v): out.append(v); break], as a function
    of the list [out] it appends to. *)
Fixpoint append_first {A} (test : A → bool) (vs : list A) (out : list A)
  : list A :=
  match vs with
  | [] => out
  | v :: rest => if test v then out ++ [v] else append_first test rest out
  end.

End Py.

Export Py.

(** ** numpy operations used by the sources *)

Module Np.

(** The value an integer takes in an [int16] array (two's complement
    wrap-around). *)
Definition int16 (z : Z) : Z := ((z + 32768) `mod` 65536 - 32768)%Z.

(** [a.shape] of a two-dimensional array held as a list of rows. *)
Definition shape2 {A} (a : list (list A)) : nat * nat :=
  (length a, length (default [] (head a))).

Definition arange (n : nat) : list Z := Z.of_nat <$> seq 0 n.

(** [np.meshgrid(x, y)]: both grids have [len(y)] rows and [len(x)]
    columns. *)
Definition meshgrid (x y : list Z) : list (list Z) * list (list Z) :=
  (replicate (length y) x, (λ b, replicate (length x) b) <$> y).

(** [img.astype(np.int16)]. *)
Definition astype_int16 (img : list (list Z)) : list (list Z) :=
  (λ row : list Z, int16 <$> row) <$> img.

(** [a * scale] for an [int16] array [a] and a Python integer [scale] that
    fits [int16]: the product stays [int16] and wraps around. (For a scale
    outside [int16] numpy promotes the array or refuses the scalar,
    depending on its version; the theorems assume a scale that fits.) *)
Definition mul_int16 (a : list (list Z)) (scale : Z) : list (list Z) :=
  (λ row : list Z, (λ d, int16 (d * scale)) <$> row) <$> a.

(** [np.stack((a, b, c), axis=2)] of three two-dimensional arrays. *)
Definition stack3 {A} (a b c : list (list A)) : list (list (A * A * A)) :=
  zip_with zip (zip_with zip a b) c.

(** [np.reshape(a, (h * w, 3))] of an [h] by [w] by 3 array (C order). *)
Definition reshape_rows {A} (a : list (list A)) : list A := concat a.

Definition sum (l : list Qc) : Qc := foldr Qcplus 0%Qc l.

(** [np.transpose] of a two-dimensional array. *)
Definition transpose (a : list (list Qc)) : list (list Qc) :=
  (λ j, (λ row, nth j row 0%Qc) <$> a) <$> seq 0 (shape2 a).2.

(** [np.dot] of two two-dimensional arrays: [ValueError] when the shapes
    are not aligned. *)
Definition dot (a b : list (list Qc)) : result (list (list Qc)) :=
  if decide ((shape2 a).2 = length b) then
    Return ((λ row, (λ col, sum (zip_with Qcmult row col)) <$> transpose b)
              <$> a)
  else Raise ValueError.

(** [a - b] for an [n] by 2 array [a] and a Python list [b] of [n] pairs:
    for [n = 0] the list is an array of shape [(0,)], which does not
    broadcast against [(0, 2)]. *)
Definition sub2 (a b : list (Qc * Qc)) : result (list (Qc * Qc)) :=
  match a with
  | [] => Raise ValueError
  | _ => Return (zip_with (λ u v, (u.1 - v.1, u.2 - v.2)%Qc) a b)
  end.

(** [a ** 2], elementwise. *)
Definition square2 (a : list (Qc * Qc)) : list (Qc * Qc) :=
  (λ u, (u.1 * u.1, u.2 * u.2)%Qc) <$> a.

(** [np.sum(a, axis=0)] of an [n] by 2 array: the two column sums. *)
Definition sum_axis0 (a : list (Qc * Qc)) : list Qc :=
  [sum (fst <$> a); sum (snd <$> a)].

(** [np.argmin]: the index of the first occurrence of the least entry. *)
Fixpoint argmin_from (best_i : nat) (best : Qc) (i : nat) (l : list Qc)
  : nat :=
  match l with
  | [] => best_i
  | a :: rest =>
      if decide (a < best)%Qc then argmin_from i a (S i) rest
      else argmin_from best_i best (S i) rest
  end.

Definition argmin (l : list Qc) : nat :=
  match l with
  | [] => 0
  | a :: rest => argmin_from 0 a 1 rest
  end.

(** [a - c], [a * b] and [a / c] on two-dimensional float arrays, [c] a
    Python float. *)
Definition sub_scalar (a : list (list Qc)) (c : Qc) : list (list Qc) :=
  (λ row : list Qc, (λ u, u - c)%Qc <$> row) <$> a.

Definition mul2 (a b : list (list Qc)) : list (list Qc) :=
  zip_with (zip_with Qcmult) a b.

Definition div_scalar (a : list (list Qc)) (c : Qc) : list (list Qc) :=
  (λ row : list Qc, (λ u, u / c)%Qc <$> row) <$> a.

(** An integer array read as a float array. *)
Definition as_float (a : list (list Z)) : list (list Qc) :=
  (λ row : list Z, Qc_of_Z <$> row) <$> a.

End Np.

(** ** Rows *)

Definition c0 {A} (v : A * A * A) : A := v.1.1.
Definition c1 {A} (v : A * A * A) : A := v.1.2.
Definition c2 {A} (v : A * A * A) : A := v.2.

(** The first two columns of a point row: its stored pixel coordinates. *)
Definition stored_xy {A} (v : A * A * A) : A * A := (c0 v, c1 v).

(** Integer rows and arrays read as rational ones ([dtype=float] holds
    every integer of the sizes used here exactly). *)
Definition qpoint (p : Z * Z * Z) : Qc * Qc * Qc :=
  (Qc_of_Z (c0 p), Qc_of_Z (c1 p), Qc_of_Z (c2 p)).
Definition qcloud (c : list (Z * Z * Z)) : list (Qc * Qc * Qc) :=
  qpoint <$> c.
Definition qmatrix (m : list (list Z)) : list (list Qc) :=
  (λ row : list Z, Qc_of_Z <$> row) <$> m.

(** ** Functions that the two source files define with the same text *)

Module Common.

(** [depth_to_voxel]: [utils.py] lines 21-45 and [karl-homo-toy-cars.py]
    lines 46-70. [img] is an integer depth image (as [read_depth_folder]
    loads it) and [scale] a Python integer. *)
Definition depth_to_voxel (img : list (list Z)) (scale : Z)
  : list (Z * Z * Z) :=
  let x := Np.arange (Np.shape2 img).2 in
  let y := Np.arange (Np.shape2 img).1 in
  let '(xx, yy) := Np.meshgrid x y in
  let pixels :=
    Np.stack3 xx yy (Np.mul_int16 (Np.astype_int16 img) scale) in
  let pixels := Np.reshape_rows pixels in
  filter (λ p, c2 p ≠ 0%Z) pixels.

(** [find_closest_3d_match]: [utils.py] lines 104-107 and
    [karl-homo-toy-cars.py] lines 138-141. *)
Definition find_closest_3d_match (x0 y0 : Qc)
    (matrix_3d : list (Qc * Qc * Qc)) : result (Qc * Qc * Qc) :=
  let arry_x0_y0 := replicate (length matrix_3d) (x0, y0) in
  diff ← Np.sub2 (stored_xy <$> matrix_3d) arry_x0_y0;
  let index := Np.argmin (Np.sum_axis0 (Np.square2 diff)) in
  getitem matrix_3d index.

End Common.

(** ** [src/utils/utils.py] *)

Module Utils.

Definition depth_to_voxel := Common.depth_to_voxel.
Definition find_closest_3d_match := Common.find_closest_3d_match.

(** [get_transformed_points], lines 92-101: no perspective divide. *)
Definition get_transformed_points (keypoints : list (Qc * Qc * Qc))
    (H_matrix : list (list Qc)) : result (list (Qc * Qc * Qc)) :=
  for_each
    (λ transformed_points i,
       k ← getitem keypoints i;
       let keypoint_3dim := [[c1 k; c0 k; c2 k; 1%Qc]] in
       transformed_point_3dim ←
         Np.dot H_matrix (Np.transpose keypoint_3dim);
       let new_value := Np.transpose transformed_point_3dim in
       row ← getitem new_value 0;
       a ← getitem row 1;
       b ← getitem row 0;
       c ← getitem row 2;
       Return (<[i := (a, b, c)]> transformed_points))
    (seq 0 (length keypoints))
    (replicate (length keypoints) (0, 0, 0)%Qc).

(** [depth_to_voxel_ld], lines 48-76: the camera-model variant. The
    products of the first two columns use the samples of [img] as they are,
    the third column is the [int16] product of [depth_to_voxel]; stacked
    with the two float columns it becomes a float column. *)
Definition depth_to_voxel_ld (img : list (list Z)) (scale : Z)
  : list (Qc * Qc * Qc) :=
  let f_x := Qc_of_Z 525 in
  let f_y := Qc_of_Z 525 in
  let c_x := (Qc_of_Z 639 / Qc_of_Z 2)%Qc in
  let c_y := (Qc_of_Z 479 / Qc_of_Z 2)%Qc in
  let x := Np.arange (Np.shape2 img).2 in
  let y := Np.arange (Np.shape2 img).1 in
  let '(xx, yy) := Np.meshgrid x y in
  let pixels :=
    Np.stack3
      (Np.div_scalar
         (Np.mul2 (Np.sub_scalar (Np.as_float xx) c_x) (Np.as_float img)) f_x)
      (Np.div_scalar
         (Np.mul2 (Np.sub_scalar (Np.as_float yy) c_y) (Np.as_float img)) f_y)
      (Np.as_float (Np.mul_int16 (Np.astype_int16 img) scale)) in
  let pixels := Np.reshape_rows pixels in
  filter (λ p, c2 p ≠ 0%Qc) pixels.

Section lookup.
Context {A : Type} `{EqDecision A}.

(** [get_3d_kps], lines 110-118: the condition is
    [i[0] == v[0] and i[1] == v[1]]. *)
Definition get_3d_kps (voxels : list (A * A * A)) (kps : list (A * A))
  : list (A * A * A) :=
  foldl (λ kps_3d i,
           append_first
             (λ v, bool_decide (i.1 = c0 v) && bool_decide (i.2 = c1 v))
             voxels kps_3d)
        [] kps.

End lookup.

End Utils.

(** ** [src/karl-homo-toy-cars.py] *)

Module Karl.

Definition depth_to_voxel := Common.depth_to_voxel.
Definition find_closest_3d_match := Common.find_closest_3d_match.

(** [get_transformed_points], lines 85-100: with the perspective divide. *)
Definition get_transformed_points (keypoints : list (Qc * Qc * Qc))
    (H_matrix : list (list Qc)) : result (list (Qc * Qc * Qc)) :=
  for_each
    (λ transformed_points i,
       k ← getitem keypoints i;
       let keypoint_3dim := [[c1 k; c0 k; c2 k; 1%Qc]] in
       transformed_point_3dim ←
         Np.dot H_matrix (Np.transpose keypoint_3dim);
       w ← getitem transformed_point_3dim 3;
       let normalize_transformed_point :=
         (λ row, zip_with Qcdiv row w) <$> take 3 transformed_point_3dim in
       let new_value := Np.transpose normalize_transformed_point in
       row ← getitem new_value 0;
       a ← getitem row 1;
       b ← getitem row 0;
       c ← getitem row 2;
       Return (<[i := (a, b, c)]> transformed_points))
    (seq 0 (length keypoints))
    (replicate (length keypoints) (0, 0, 0)%Qc).

(** [get_transformed_pointsv2], lines 102-121: the rows are not
    homogenized, so [H_matrix] has three columns. *)
Definition get_transformed_pointsv2 (keypoints : list (Qc * Qc * Qc))
    (H_matrix : list (list Qc)) : result (list (Qc * Qc * Qc)) :=
  for_each
    (λ transformed_points i,
       k ← getitem keypoints i;
       let keypoint_3dim := [[c1 k; c0 k; c2 k]] in
       transformed_point_3dim ←
         Np.dot H_matrix (Np.transpose keypoint_3dim);
       let new_value := Np.transpose transformed_point_3dim in
       row ← getitem new_value 0;
       a ← getitem row 1;
       b ← getitem row 0;
       c ← getitem row 2;
       Return (<[i := (a, b, c)]> transformed_points))
    (seq 0 (length keypoints))
    (replicate (length keypoints) (0, 0, 0)%Qc).

Section lookup.
Context {A : Type} `{EqDecision A}.

(** [get_3d_kps], lines 144-152: the condition is
    [i[1] == v[0] and i[0] == v[1]]. *)
Definition get_3d_kps (voxels : list (A * A * A)) (kps : list (A * A))
  : list (A * A * A) :=
  foldl (λ kps_3d i,
           append_first
             (λ v, bool_decide (i.2 = c0 v) && bool_decide (i.1 = c1 v))
             voxels kps_3d)
        [] kps.

End lookup.

(** *** The module-level loops

    The collaborators that are not under [src/] are parameters: the images,
    the keypoint detector (resize, [sift.detectAndCompute] and the cast of
    each [kp.pt] to integers), the descriptor matcher [q8.mathching_skimage]
    and the module [homo3d] ([homo_rigid_transform_3D] and
    [get_transformed_points]). [q9.ransac_loop] only feeds a [print] and the
    lists [m_kp1], [m_kp2], which are never read, and is left out, with the
    [print] of line 239 and the loop of lines 248-250. These lines run
    before the clouds are read and can raise on their own (a [TypeError] from
    [len(des1)] on an image without keypoints): where an iteration of the
    model raises, the script raises too, but possibly earlier and another
    exception. *)

Section script.
Context {A : Type} `{EqDecision A}.
Context {Image Matrix : Type}.
Variable detect : Image → list (A * A).
Variable mathching_skimage : Image → Image → list (nat * nat).
Variable homo_rigid_transform_3D :
  list (A * A * A) → list (A * A * A) → Matrix.
Variable homo3d_get_transformed_points :
  list (A * A * A) → Matrix → list (A * A * A).

(** One iteration of the loop of lines 228-263, as a function of the list
    [h_matrixes] it appends to. *)
Definition h_matrix_step (cv2_imgs : list Image)
    (input_voxels : list (list (A * A * A)))
    (h_matrixes : list Matrix) (i : nat) : result (list Matrix) :=
  img1 ← getitem cv2_imgs i;
  img2 ← getitem cv2_imgs (i + 1);
  let orginal_points := (λ pt, (pt.2, pt.1)) <$> detect img1 in
  let keypoints_prime := (λ pt, (pt.2, pt.1)) <$> detect img2 in
  let bf_matches := mathching_skimage img1 img2 in
  voxels1 ← getitem input_voxels 0;
  let kps1_3d := get_3d_kps voxels1 orginal_points in
  voxels2 ← getitem input_voxels 1;
  let kps2_3d := get_3d_kps voxels2 keypoints_prime in
  m_kps ← for_each
    (λ m_kps m,
       p1 ← getitem kps1_3d m.1;
       p2 ← getitem kps2_3d m.2;
       Return (m_kps.1 ++ [p1], m_kps.2 ++ [p2]))
    bf_matches ([], []);
  let Hmatrix := homo_rigid_transform_3D m_kps.2 m_kps.1 in
  Return (h_matrixes ++ [Hmatrix]).

Definition h_matrix_loop (cv2_imgs : list Image)
    (input_voxels : list (list (A * A * A))) : result (list Matrix) :=
  for_each (h_matrix_step cv2_imgs input_voxels)
    (seq 0 (length cv2_imgs - 1)) [].

(** The loop of lines 265-269. *)
Definition register (input_voxels : list (list (A * A * A)))
    (h_matrixes : list Matrix) : result (list (list (A * A * A))) :=
  first ← getitem input_voxels 0;
  for_each
    (λ new_3d_pts i,
       if decide (i ≠ 0) then
         voxel ← getitem input_voxels i;
         h ← getitem h_matrixes (i - 1);
         Return (new_3d_pts ++ [homo3d_get_transformed_points voxel h])
       else Return new_3d_pts)
    (seq 0 (length input_voxels)) [first].


End script.

End Karl.

(** ** The operations as the specification words them *)

Module Spec.

(** The first row of [cloud], in cloud order, whose stored [(x,y)] is [r]
    (stdpp's [list_find] also reports its position). *)
Definition first_match {A} `{EqDecision A} (cloud : list (A * A * A))
    (r : A * A) : option (A * A * A) :=
  snd <$> list_find (λ v, stored_xy v = r) cloud.

(** [toPointCloud]: scan the pixels row by row and emit [(x, y, d * scale)]
    for every pixel whose depth [d] is not zero. *)
Definition toPointCloud (img : list (list Z)) (scale : Z)
  : list (Z * Z * Z) :=
  y ← seq 0 (length img);
  x ← seq 0 (length (default [] (head img)));
  let d := nth x (nth y img []) 0%Z in
  if decide (d ≠ 0%Z) then [(Z.of_nat x, Z.of_nat y, (d * scale)%Z)] else [].

(** A depth image is a rectangular array: all rows have the width
    [img.shape[1]]. *)
Definition rectangular (img : list (list Z)) : Prop :=
  Forall (λ row, length row = (Np.shape2 img).2) img.

Definition fits_int16 (z : Z) : Prop := (-32768 ≤ z ≤ 32767)%Z.

Definition is_4x4 (M : list (list Qc)) : Prop :=
  length M = 4 ∧ Forall (λ row, length row = 4) M.

Definition identityTransform : list (list Qc) :=
  qmatrix [[1; 0; 0; 0]; [0; 1; 0; 0]; [0; 0; 1; 0]; [0; 0; 0; 1]]%Z.

(** The pure translation by [(tx, ty, tz)]. *)
Definition translation (tx ty tz : Z) : list (list Qc) :=
  qmatrix [[1; 0; 0; tx]; [0; 1; 0; ty]; [0; 0; 1; tz]; [0; 0; 0; 1]]%Z.

(** The product of a matrix and a column vector. *)
Definition mat_vec (M : list (list Qc)) (v : list Qc) : list Qc :=
  (λ row, Np.sum (zip_with Qcmult row v)) <$> M.

Definition homogenize (p : Qc * Qc * Qc) : list Qc :=
  [c0 p; c1 p; c2 p; 1%Qc].

(** The fourth component of the product, the divisor of the perspective
    divide. *)
Definition hom_w (M : list (list Qc)) (p : Qc * Qc * Qc) : Qc :=
  nth 3 (mat_vec M (homogenize p)) 0%Qc.

(** A row with its first two columns exchanged. *)
Definition swap_xy {A} (p : A * A * A) : A * A * A := (c1 p, c0 p, c2 p).

(** Modelled from the spec: [homo3d.get_transformed_points] is not under
    [src/]. Section 4.4: homogenize each point to [(x,y,z,1)], multiply by
    the 4x4 matrix, and divide the first three components by the fourth when
    [normalize] is true, use them directly otherwise. *)
Definition apply_point (normalize : bool) (M : list (list Qc))
    (p : Qc * Qc * Qc) : Qc * Qc * Qc :=
  let r := mat_vec M (homogenize p) in
  let g (k : nat) := nth k r 0%Qc in
  if normalize then (Qcdiv (g 0) (g 3), Qcdiv (g 1) (g 3), Qcdiv (g 2) (g 3))
  else (g 0, g 1, g 2).

Definition apply (normalize : bool) (cloud : list (Qc * Qc * Qc))
    (M : list (list Qc)) : list (Qc * Qc * Qc) :=
  apply_point normalize M <$> cloud.

(** The nearest cloud point to [(x0, y0)] in the pixel plane, the first one
    among equals. *)
Definition dist2 (x0 y0 : Qc) (v : Qc * Qc * Qc) : Qc :=
  ((c0 v - x0) * (c0 v - x0) + (c1 v - y0) * (c1 v - y0))%Qc.

Definition nearestMatch (x0 y0 : Qc) (cloud : list (Qc * Qc * Qc))
  : option (Qc * Qc * Qc) :=
  cloud !! Np.argmin (dist2 x0 y0 <$> cloud).

(** The row-major scan of an [h] by [w] grid that keeps the pixel [(x, y)]
    as the point [(x, y, z y x)] when [z y x] is not zero. *)
Definition scan_pixels (h w : nat) (z : nat → nat → Z) : list (Z * Z * Z) :=
  y ← seq 0 h;
  x ← seq 0 w;
  if decide (z y x ≠ 0%Z) then [(Z.of_nat x, Z.of_nat y, z y x)] else [].

(** The third column that [depth_to_voxel] computes for the pixel
    [(x, y)]: the [int16] product of the [int16] sample and the scale. *)
Definition scaled_depth (img : list (list Z)) (scale : Z) (y x : nat) : Z :=
  Np.int16 (Np.int16 (nth x (nth y img []) 0%Z) * scale).

Definition is_3x3 (M : list (list Qc)) : Prop :=
  length M = 3 ∧ Forall (λ row, length row = 3) M.

(** The product of a matrix and a row read as a column vector, without
    homogenization. *)
Definition linear_point (M : list (list Qc)) (p : Qc * Qc * Qc)
  : Qc * Qc * Qc :=
  let r := mat_vec M [c0 p; c1 p; c2 p] in
  (nth 0 r 0%Qc, nth 1 r 0%Qc, nth 2 r 0%Qc).

(** An affine 4x4 matrix: its fourth row is [0, 0, 0, 1]. *)
Definition affine_row (M : list (list Qc)) : Prop :=
  M !! 3 = Some [0%Qc; 0%Qc; 0%Qc; 1%Qc].

(** The pinhole projection that [depth_to_voxel_ld] applies to the pixel
    of a point [p] of [depth_to_voxel]: the pixel indices, moved by the
    principal point [(319.5, 239.5)], times the depth sample of the pixel,
    over the focal length 525; the third column is kept. *)
Definition project_ld (img : list (list Z)) (p : Z * Z * Z) : Qc * Qc * Qc :=
  let d := Qc_of_Z (nth (Z.to_nat (c0 p)) (nth (Z.to_nat (c1 p)) img []) 0%Z) in
  ((Qc_of_Z (c0 p) - Qc_of_Z 639 / Qc_of_Z 2) * d / Qc_of_Z 525,
   (Qc_of_Z (c1 p) - Qc_of_Z 479 / Qc_of_Z 2) * d / Qc_of_Z 525,
   Qc_of_Z (c2 p))%Qc.

End Spec.

(** * Properties *)

Section lookup_facts.
Context {A : Type} `{EqDecision A}.
Implicit Types (v : A * A * A) (i r : A * A).
Implicit Types (voxels cloud out : list (A * A * A)) (kps : list (A * A)).

Lemma append_first_find (P : A * A * A → Prop) `{∀ v, Decision (P v)}
    voxels out :
  append_first (λ v, bool_decide (P v)) voxels out
  = out ++ option_list (snd <$> list_find P voxels).
Proof.
  induction voxels as [|v voxels IH]; simpl.
  - by rewrite app_nil_r.
  - case_bool_decide; case_decide; try done.
    rewrite IH. by destruct (list_find P voxels) as [[??]|].
Qed.

Lemma append_first_ext (f g : A * A * A → bool) voxels out :
  (∀ v, f v = g v) → append_first f voxels out = append_first g voxels out.
Proof.
  intros Hfg. induction voxels as [|v voxels IH]; simpl; [done|].
  by rewrite Hfg, IH.
Qed.

Lemma foldl_lookup_omap (f : A * A → option (A * A * A)) kps out :
  foldl (λ acc i, acc ++ option_list (f i)) out kps = out ++ omap f kps.
Proof.
  revert out. induction kps as [|i kps IH]; intros out; simpl.
  - by rewrite app_nil_r.
  - rewrite IH. destruct (f i); simpl; [|by rewrite app_nil_r].
    by rewrite <-app_assoc.
Qed.

Lemma foldl_ext_step {S T} (f g : S → T → S) (l : list T) (a : S) :
  (∀ a x, f a x = g a x) → foldl f a l = foldl g a l.
Proof.
  intros Hfg. revert a. induction l as [|x l IH]; intros a; simpl; [done|].
  by rewrite Hfg, IH.
Qed.

Lemma utils_get_3d_kps_omap voxels kps :
  Utils.get_3d_kps voxels kps = omap (Spec.first_match voxels) kps.
Proof.
  unfold Utils.get_3d_kps, Spec.first_match.
  rewrite <-(app_nil_l (omap _ kps)), <-foldl_lookup_omap.
  apply foldl_ext_step. intros out [x y]. simpl.
  rewrite <-append_first_find. apply append_first_ext.
  intros [[a b] c]. unfold stored_xy, c0, c1. simpl.
  repeat case_bool_decide; simplify_eq; done.
Qed.

Lemma karl_get_3d_kps_omap voxels kps :
  Karl.get_3d_kps voxels kps
  = omap (λ i, Spec.first_match voxels (i.2, i.1)) kps.
Proof.
  unfold Karl.get_3d_kps, Spec.first_match.
  rewrite <-(app_nil_l (omap _ kps)), <-foldl_lookup_omap.
  apply foldl_ext_step. intros out [x y]. simpl.
  rewrite <-append_first_find. apply append_first_ext.
  intros [[a b] c]. unfold stored_xy, c0, c1. simpl.
  repeat case_bool_decide; simplify_eq; done.
Qed.

Lemma first_match_Some cloud r v :
  Spec.first_match cloud r = Some v ↔
  ∃ n, cloud !! n = Some v ∧ stored_xy v = r
       ∧ ∀ m v', cloud !! m = Some v' → m < n → stored_xy v' ≠ r.
Proof.
  unfold Spec.first_match. split.
  - intros Hf. apply fmap_Some in Hf as [[n v'] [Hf ->]].
    apply list_find_Some in Hf. exists n. simpl. naive_solver.
  - intros (n & Hn & Hr & Hfirst). apply fmap_Some. exists (n, v).
    split; [|done]. apply list_find_Some. naive_solver.
Qed.

Lemma first_match_None cloud r :
  Spec.first_match cloud r = None ↔ ∀ v, v ∈ cloud → stored_xy v ≠ r.
Proof.
  unfold Spec.first_match. rewrite fmap_None, list_find_None, Forall_forall.
  reflexivity.
Qed.

Lemma first_match_elem_of cloud r v :
  Spec.first_match cloud r = Some v → v ∈ cloud.
Proof.
  intros (n & Hn & _)%first_match_Some. by eapply list_elem_of_lookup_2.
Qed.

Lemma length_omap_le {B C} (f : B → option C) (l : list B) :
  length (omap f l) ≤ length l.
Proof.
  induction l as [|b l IH]; csimpl; [lia|]. destruct (f b); csimpl; lia.
Qed.

Lemma length_omap_lt {B C} (f : B → option C) (l : list B) b :
  b ∈ l → f b = None → length (omap f l) < length l.
Proof.
  induction 1 as [b l|b b' l Hin IH]; intros Hb; csimpl.
  - rewrite Hb. pose proof (length_omap_le f l). lia.
  - specialize (IH Hb). destruct (f b'); csimpl; lia.
Qed.

End lookup_facts.

(** ** The exact lookup [get_3d_kps] *)

(** C7, as stated, fails for the [get_3d_kps] of [karl-homo-toy-cars.py]:
    on the cloud [[(1,2,5)]] it drops the request [(1,2)], although the row
    stores these [(x,y)], and it answers the request [(2,1)], which is the
    stored [(x,y)] of no row, so that the result is not shorter than the
    request list. *)
Lemma get_3d_kps_karl_reads_row_col :
  Spec.first_match [(1, 2, 5)%Z] (1, 2)%Z = Some (1, 2, 5)%Z
  ∧ Karl.get_3d_kps [(1, 2, 5)%Z] [(1, 2)%Z] = []
  ∧ Spec.first_match [(1, 2, 5)%Z] (2, 1)%Z = None
  ∧ Karl.get_3d_kps [(1, 2, 5)%Z] [(2, 1)%Z] = [(1, 2, 5)%Z]
  ∧ ¬ length (Karl.get_3d_kps [(1, 2, 5)%Z] [(2, 1)%Z])
      < length [(2, 1)%Z].
Proof. repeat split. simpl. lia. Qed.

(** C7, amended. Each of the two [get_3d_kps] returns, request by request
    and in the order of the requests, the first cloud row that matches the
    request: [utils.py] reads a request [i] as [(x,y)] and matches the rows
    whose stored [(x,y)] is [(i[0], i[1])], [karl-homo-toy-cars.py] reads it
    as [(row,col)] and matches the rows whose stored [(x,y)] is
    [(i[1], i[0])]. A request that no cloud row matches under that reading
    is dropped, never an error, so the result is never longer than the
    request list and is strictly shorter as soon as one request is absent
    from the cloud under that reading. *)
Theorem get_3d_kps_exact_lookup {A} `{EqDecision A}
    (voxels : list (A * A * A)) (kps : list (A * A)) :
  Utils.get_3d_kps voxels kps = omap (Spec.first_match voxels) kps
  ∧ Karl.get_3d_kps voxels kps
    = omap (λ i, Spec.first_match voxels (i.2, i.1)) kps
  ∧ length (Utils.get_3d_kps voxels kps) ≤ length kps
  ∧ length (Karl.get_3d_kps voxels kps) ≤ length kps
  ∧ ((∃ i, i ∈ kps ∧ ∀ v, v ∈ voxels → stored_xy v ≠ i) →
     length (Utils.get_3d_kps voxels kps) < length kps)
  ∧ ((∃ i, i ∈ kps ∧ ∀ v, v ∈ voxels → stored_xy v ≠ (i.2, i.1)) →
     length (Karl.get_3d_kps voxels kps) < length kps).
Proof.
  rewrite utils_get_3d_kps_omap, karl_get_3d_kps_omap.
  repeat split; try apply length_omap_le.
  - intros (i & Hi & Habs). eapply length_omap_lt; [done|].
    by apply first_match_None.
  - intros (i & Hi & Habs). eapply length_omap_lt; [done|].
    by apply first_match_None.
Qed.

Lemma get_3d_kps_exact_lookup_witness :
  length (Utils.get_3d_kps [(1, 2, 5)%Z] [(1, 2)%Z; (3, 3)%Z]) < 2
  ∧ length (Karl.get_3d_kps [(1, 2, 5)%Z] [(2, 1)%Z; (1, 2)%Z]) < 2.
Proof.
  split.
  - apply (get_3d_kps_exact_lookup [(1, 2, 5)%Z] [(1, 2)%Z; (3, 3)%Z]).
    exists (3, 3)%Z. split.
    + apply list_elem_of_In. simpl. auto.
    + intros v Hv%list_elem_of_In. simpl in Hv.
      destruct Hv as [<-|[]]. discriminate.
  - apply (get_3d_kps_exact_lookup [(1, 2, 5)%Z] [(2, 1)%Z; (1, 2)%Z]).
    exists (1, 2)%Z. split.
    + apply list_elem_of_In. simpl. auto.
    + intros v Hv%list_elem_of_In. simpl in Hv.
      destruct Hv as [<-|[]]. discriminate.
Defined.

(** C8, as stated, fails: on the cloud [[(1,2,5)]] and the keypoint
    [(1,2)] the lookup of [utils.py] finds the row and the one of
    [karl-homo-toy-cars.py] finds nothing. *)
Lemma get_3d_kps_versions_differ :
  Utils.get_3d_kps [(1, 2, 5)%Z] [(1, 2)%Z] = [(1, 2, 5)%Z]
  ∧ Karl.get_3d_kps [(1, 2, 5)%Z] [(1, 2)%Z] = []
  ∧ Utils.get_3d_kps [(1, 2, 5)%Z] [(1, 2)%Z]
    ≠ Karl.get_3d_kps [(1, 2, 5)%Z] [(1, 2)%Z].
Proof. repeat split. discriminate. Qed.

(** C8, amended. The lookup of [karl-homo-toy-cars.py] on keypoints
    [(row,col)] returns what the lookup of [utils.py] returns on the
    keypoints with their two columns exchanged. *)
Theorem get_3d_kps_versions_swap {A} `{EqDecision A}
    (voxels : list (A * A * A)) (kps : list (A * A)) :
  Karl.get_3d_kps voxels kps
  = Utils.get_3d_kps voxels ((λ i, (i.2, i.1)) <$> kps).
Proof.
  rewrite utils_get_3d_kps_omap, karl_get_3d_kps_omap.
  induction kps as [|i kps IH]; csimpl; [done|]. by rewrite IH.
Qed.

(** ** The depth-to-point-cloud converter *)

Lemma zip_row (zf : Z → Z) (y : Z) row s :
  zip (zip (Z.of_nat <$> seq s (length row)) (replicate (length row) y))
      (zf <$> row)
  = imap (λ x d, (Z.of_nat (s + x), y, zf d)) row.
Proof.
  revert s. induction row as [|d row IH]; intros s; simpl; [done|].
  rewrite IH. f_equal; [by rewrite Nat.add_0_r|].
  apply imap_ext. intros x d' _. simpl. by rewrite Nat.add_succ_r.
Qed.

Lemma zip_rows (zf : Z → Z) (xs : list Z) w rows s :
  xs = Z.of_nat <$> seq 0 w →
  Forall (λ row, length row = w) rows →
  zip_with zip
    (zip_with zip (replicate (length rows) xs)
       ((λ b : Z, replicate w b) <$> (Z.of_nat <$> seq s (length rows))))
    ((λ row : list Z, zf <$> row) <$> rows)
  = imap (λ y row, imap (λ x d, (Z.of_nat x, Z.of_nat (s + y), zf d)) row) rows.
Proof.
  intros -> Hrect. revert s.
  induction Hrect as [|row rows Hrow Hrect IH]; intros s; simpl; [done|].
  rewrite IH. f_equal.
  - rewrite <-Hrow, zip_row, Nat.add_0_r. done.
  - apply imap_ext. intros y row' _. simpl. by rewrite Nat.add_succ_r.
Qed.

Lemma imap_nth {B C} (g : nat → B → C) (l : list B) (d : B) :
  imap g l = (λ j, g j (nth j l d)) <$> seq 0 (length l).
Proof.
  apply list_eq. intros j.
  rewrite list_lookup_imap, list_lookup_fmap.
  destruct (decide (j < length l)) as [Hj|Hj].
  - rewrite lookup_seq_lt by done. simpl.
    destruct (lookup_lt_is_Some_2 l j Hj) as [b Hb]. rewrite Hb. simpl.
    f_equal. f_equal. by rewrite (nth_lookup_Some _ _ _ _ Hb).
  - rewrite lookup_seq_ge by lia. rewrite lookup_ge_None_2 by lia. done.
Qed.

Lemma concat_fmap_bind {B C} (g : B → list C) (l : list B) :
  concat (g <$> l) = l ≫= g.
Proof. induction l as [|b l IH]; csimpl; [done|]. by rewrite IH. Qed.

Lemma filter_bind {B C} (P : C → Prop) `{∀ c, Decision (P c)}
    (g : B → list C) (l : list B) :
  filter P (l ≫= g) = l ≫= (λ b, filter P (g b)).
Proof.
  induction l as [|b l IH]; csimpl; [done|]. by rewrite filter_app, IH.
Qed.

Lemma filter_fmap_bind {B C} (P : C → Prop) `{∀ c, Decision (P c)}
    (g : B → C) (l : list B) :
  filter P (g <$> l) = l ≫= (λ b, if decide (P (g b)) then [g b] else []).
Proof.
  induction l as [|b l IH]; csimpl; [done|].
  rewrite filter_cons, IH. by destruct (decide (P (g b))).
Qed.

Lemma bind_ext_in {B C} (g1 g2 : B → list C) (l : list B) :
  (∀ b, b ∈ l → g1 b = g2 b) → l ≫= g1 = l ≫= g2.
Proof.
  induction l as [|b l IH]; intros Hg; csimpl; [done|].
  rewrite Hg by left. rewrite IH; [done|]. intros b' Hb'. apply Hg. by right.
Qed.

Lemma fmap_rows_compose {B C D} (f : B → C) (g : C → D) (a : list (list B)) :
  (λ row : list C, g <$> row) <$> ((λ row : list B, f <$> row) <$> a)
  = (λ row : list B, (λ d, g (f d)) <$> row) <$> a.
Proof.
  rewrite <-list_fmap_compose. apply list_fmap_ext. intros _ row _. simpl.
  by rewrite <-list_fmap_compose.
Qed.

Lemma depth_to_voxel_scan img scale :
  Spec.rectangular img →
  Common.depth_to_voxel img scale =
  y ← seq 0 (length img);
  x ← seq 0 (Np.shape2 img).2;
  let z := Np.int16 (Np.int16 (nth x (nth y img []) 0%Z) * scale) in
  if decide (z ≠ 0%Z) then [(Z.of_nat x, Z.of_nat y, z)] else [].
Proof.
  intros Hrect. unfold Common.depth_to_voxel, Np.meshgrid, Np.stack3,
    Np.reshape_rows, Np.astype_int16, Np.mul_int16, Np.arange.
  set (w := (Np.shape2 img).2) in *.
  replace (Np.shape2 img).1 with (length img) by done.
  rewrite !length_fmap, !length_seq, fmap_rows_compose.
  rewrite (zip_rows (λ d, Np.int16 (Np.int16 d * scale)) _ w img 0 eq_refl Hrect).
  rewrite (imap_nth _ img []), concat_fmap_bind, filter_bind.
  apply bind_ext_in. intros y Hy%elem_of_seq.
  assert (length (nth y img []) = w) as Hlen.
  { destruct (lookup_lt_is_Some_2 img y) as [row Hrow]; [lia|].
    rewrite (nth_lookup_Some _ _ _ _ Hrow).
    by apply (Forall_lookup_1 _ _ _ _ Hrect Hrow). }
  rewrite (imap_nth _ _ 0%Z), Hlen, filter_fmap_bind.
  apply bind_ext_in. intros x _. simpl. unfold c2. simpl. done.
Qed.

Lemma int16_fits z : Spec.fits_int16 z → Np.int16 z = z.
Proof. unfold Spec.fits_int16, Np.int16. intros Hz. rewrite Z.mod_small; lia. Qed.

Lemma filter_zip_zero {B} (ab : list B) (zr : list Z) :
  Forall (λ z, z = 0%Z) zr →
  filter (λ p : B * Z, p.2 ≠ 0%Z) (zip ab zr) = [].
Proof.
  intros Hz. revert ab. induction Hz as [|z zr -> _ IH]; intros [|b ab]; try done.
  simpl. rewrite filter_cons_False by (simpl; lia). apply IH.
Qed.

Lemma filter_rows_zero {B} (ab : list (list B)) (zz : list (list Z)) :
  Forall (Forall (λ z, z = 0%Z)) zz →
  filter (λ p : B * Z, p.2 ≠ 0%Z) (concat (zip_with zip ab zz)) = [].
Proof.
  intros Hz. revert ab. induction Hz as [|zr zz Hzr _ IH]; intros [|b ab]; try done.
  simpl. by rewrite filter_app, filter_zip_zero, IH.
Qed.

Lemma depth_to_voxel_zero img scale :
  Forall (Forall (λ d, d = 0%Z)) img → Common.depth_to_voxel img scale = [].
Proof.
  intros Hz. unfold Common.depth_to_voxel, Np.meshgrid, Np.stack3, Np.reshape_rows.
  apply (filter_rows_zero (B := Z * Z)).
  unfold Np.mul_int16, Np.astype_int16. rewrite fmap_rows_compose.
  apply Forall_fmap. eapply Forall_impl; [exact Hz|]. intros row Hrow. simpl.
  apply Forall_fmap. eapply Forall_impl; [exact Hrow|]. by intros d ->.
Qed.

Lemma depth_to_voxel_no_zero img scale :
  Forall (λ p, c2 p ≠ 0%Z) (Common.depth_to_voxel img scale).
Proof.
  unfold Common.depth_to_voxel. simpl. apply Forall_forall.
  by intros p [Hp _]%list_elem_of_filter.
Qed.

Lemma depth_to_voxel_toPointCloud img scale :
  Spec.rectangular img →
  Forall (Forall (λ d, Spec.fits_int16 d ∧ Spec.fits_int16 (d * scale))) img →
  scale ≠ 0%Z →
  Common.depth_to_voxel img scale = Spec.toPointCloud img scale.
Proof.
  intros Hrect Hfit Hscale. rewrite depth_to_voxel_scan by done.
  unfold Spec.toPointCloud. apply bind_ext_in. intros y Hy%elem_of_seq.
  destruct (lookup_lt_is_Some_2 img y) as [row Hrow]; [lia|].
  rewrite (nth_lookup_Some _ _ _ _ Hrow).
  pose proof (Forall_lookup_1 _ _ _ _ Hrect Hrow) as Hlen. simpl in Hlen.
  pose proof (Forall_lookup_1 _ _ _ _ Hfit Hrow) as Hfrow. simpl in Hfrow.
  apply bind_ext_in. intros x Hx%elem_of_seq.
  destruct (lookup_lt_is_Some_2 row x) as [d Hd]; [unfold Np.shape2 in *; simpl in *; lia|].
  rewrite (nth_lookup_Some _ _ _ _ Hd).
  destruct (Forall_lookup_1 _ _ _ _ Hfrow Hd) as [Hd1 Hd2].
  simpl. rewrite (int16_fits d), (int16_fits (d * scale)) by done.
  repeat case_decide; try done; nia.
Qed.

(** C2, as stated, fails: with [scale = 0] the pixel of depth 5 is dropped,
    because the filter tests the scaled value and not the depth. *)
Lemma depth_to_voxel_scale_zero_drops :
  Utils.depth_to_voxel [[5]]%Z 0 = []
  ∧ Karl.depth_to_voxel [[5]]%Z 0 = []
  ∧ Spec.toPointCloud [[5]]%Z 0 = [(0, 0, 0)%Z]
  ∧ Utils.depth_to_voxel [[5]]%Z 0 ≠ Spec.toPointCloud [[5]]%Z 0.
Proof. repeat split. discriminate. Qed.

(** A product that leaves [int16] wraps around: depth 128 at scale 512
    becomes 0 and the pixel is dropped as well. *)
Example depth_to_voxel_wraps :
  Common.depth_to_voxel [[128; 1]]%Z 512 = [(1, 0, 512)%Z].
Proof. reflexivity. Qed.

Lemma toPointCloud_elem_of img scale (p : Z * Z * Z) :
  p ∈ Spec.toPointCloud img scale ↔
  ∃ x y, y < length img ∧ x < (Np.shape2 img).2
         ∧ nth x (nth y img []) 0%Z ≠ 0%Z
         ∧ p = (Z.of_nat x, Z.of_nat y,
                (nth x (nth y img []) 0 * scale)%Z).
Proof.
  unfold Spec.toPointCloud. rewrite list_elem_of_bind. split.
  - intros (y & (x & Hp & Hx%elem_of_seq)%list_elem_of_bind & Hy%elem_of_seq).
    simpl in Hp. case_decide; [|by apply not_elem_of_nil in Hp].
    apply list_elem_of_singleton in Hp. exists x, y.
    unfold Np.shape2. simpl. repeat split; try done; lia.
  - intros (x & y & Hy & Hx & Hd & ->). exists y.
    split; [|apply elem_of_seq; lia].
    apply list_elem_of_bind. exists x.
    split; [|apply elem_of_seq; unfold Np.shape2 in Hx; simpl in Hx; lia].
    simpl. rewrite decide_True by done. by apply list_elem_of_singleton.
Qed.

Lemma toPointCloud_NoDup img scale : NoDup (Spec.toPointCloud img scale).
Proof.
  unfold Spec.toPointCloud. apply NoDup_bind; [| |apply NoDup_seq].
  - intros y1 y2 p _ _ (x1 & Hp1 & _)%list_elem_of_bind
      (x2 & Hp2 & _)%list_elem_of_bind. simpl in *.
    repeat case_decide; try by (exfalso; eapply not_elem_of_nil; eauto).
    apply list_elem_of_singleton in Hp1, Hp2. simplify_eq. lia.
  - intros y _. apply NoDup_bind; [| |apply NoDup_seq].
    + intros x1 x2 p _ _ Hp1 Hp2. simpl in *.
      repeat case_decide; try by (exfalso; eapply not_elem_of_nil; eauto).
      apply list_elem_of_singleton in Hp1, Hp2. simplify_eq. lia.
    + intros x _. simpl. case_decide; [apply NoDup_singleton|constructor].
Qed.

(** C2, amended. For every rectangular integer depth array and every
    nonzero integer scale such that the scale, the samples and their scaled
    values fit [int16], the converter emits, in row-major scan order, exactly
    the points [(x, y, depth[y][x] * scale)] of the pixels of nonzero depth
    (one point each, by [toPointCloud_elem_of] and [toPointCloud_NoDup]),
    and no emitted point has [z = 0]. *)
Theorem depth_to_voxel_nonzero_pixels img scale :
  Spec.rectangular img →
  Spec.fits_int16 scale →
  Forall (Forall (λ d, Spec.fits_int16 d ∧ Spec.fits_int16 (d * scale))) img →
  scale ≠ 0%Z →
  Utils.depth_to_voxel img scale = Spec.toPointCloud img scale
  ∧ Karl.depth_to_voxel img scale = Spec.toPointCloud img scale
  ∧ Forall (λ p, c2 p ≠ 0%Z) (Utils.depth_to_voxel img scale).
Proof.
  intros Hrect _ Hfit Hscale. unfold Utils.depth_to_voxel, Karl.depth_to_voxel.
  rewrite depth_to_voxel_toPointCloud by done.
  repeat split. rewrite <-depth_to_voxel_toPointCloud by done.
  apply depth_to_voxel_no_zero.
Qed.

Lemma depth_to_voxel_nonzero_pixels_witness :
  Utils.depth_to_voxel [[0; 5]; [5; 0]]%Z 1 = [(1, 0, 5)%Z; (0, 1, 5)%Z].
Proof.
  apply (depth_to_voxel_nonzero_pixels [[0; 5]; [5; 0]]%Z 1).
  - repeat constructor.
  - unfold Spec.fits_int16; lia.
  - repeat constructor; unfold Spec.fits_int16; lia.
  - lia.
Defined.

(** C9, as stated, fails: the all-zero 2x2 depth map is converted to the
    empty cloud, which is returned like any other; the function has no
    error outcome. *)
Lemma depth_to_voxel_all_zero_returns :
  Forall (Forall (λ d, d = 0%Z)) [[0; 0]; [0; 0]]%Z
  ∧ Utils.depth_to_voxel [[0; 0]; [0; 0]]%Z 1 = []
  ∧ Karl.depth_to_voxel [[0; 0]; [0; 0]]%Z 1 = [].
Proof. repeat split; repeat constructor. Qed.

(** C9, amended. For every depth map all of whose samples are zero, and
    every integer scale that fits [int16], the conversion returns the empty
    cloud. *)
Theorem depth_to_voxel_all_zero_empty img scale :
  Spec.fits_int16 scale →
  Forall (Forall (λ d, d = 0%Z)) img →
  Utils.depth_to_voxel img scale = [] ∧ Karl.depth_to_voxel img scale = [].
Proof. intros _ Hz. split; by apply depth_to_voxel_zero. Qed.

Lemma depth_to_voxel_all_zero_empty_witness :
  Utils.depth_to_voxel [[0; 0]; [0; 0]]%Z 1 = []
  ∧ Karl.depth_to_voxel [[0; 0]; [0; 0]]%Z 1 = [].
Proof.
  apply (depth_to_voxel_all_zero_empty [[0; 0]; [0; 0]]%Z 1).
  - unfold Spec.fits_int16; lia.
  - repeat constructor.
Defined.

(** X4. For every rectangular integer depth array and every integer scale
    that fits [int16], the converter scans the pixels in row-major order and
    keeps the pixel [(x, y)] exactly when its scaled [int16] value
    [z = int16 (int16 depth[y][x] * scale)] is not zero, as the point
    [(x, y, z)]. *)
Theorem depth_to_voxel_filters_scaled_value img scale :
  Spec.rectangular img →
  Spec.fits_int16 scale →
  Utils.depth_to_voxel img scale =
  y ← seq 0 (length img);
  x ← seq 0 (Np.shape2 img).2;
  let z := Np.int16 (Np.int16 (nth x (nth y img []) 0%Z) * scale) in
  if decide (z ≠ 0%Z) then [(Z.of_nat x, Z.of_nat y, z)] else [].
Proof. intros Hrect _. by apply depth_to_voxel_scan. Qed.

Lemma depth_to_voxel_filters_scaled_value_witness :
  Utils.depth_to_voxel [[128; 1]]%Z 512 = [(1, 0, 512)%Z].
Proof.
  apply (depth_to_voxel_filters_scaled_value [[128; 1]]%Z 512).
  - repeat constructor.
  - unfold Spec.fits_int16; lia.
Defined.

(** ** The transform applicators *)

Lemma for_each_rows {B C} (body : list C → nat → result (list C))
    (l : list B) (g : B → C) (d : C) :
  (∀ acc i b, l !! i = Some b → body acc i = Return (<[i := g b]> acc)) →
  for_each body (seq 0 (length l)) (replicate (length l) d)
  = Return (g <$> l).
Proof.
  intros Hbody.
  assert (∀ n s, s + n = length l →
    for_each body (seq s n) ((g <$> take s l) ++ replicate n d)
    = Return (g <$> l)) as Hloop.
  { induction n as [|n IH]; intros s Hs; simpl.
    - rewrite app_nil_r, take_ge by lia. done.
    - destruct (lookup_lt_is_Some_2 l s) as [b Hb]; [lia|].
      rewrite (Hbody _ _ _ Hb). simpl.
      rewrite insert_app_r_alt by (rewrite length_fmap, length_take; lia).
      rewrite length_fmap, length_take, Nat.min_l by lia.
      rewrite Nat.sub_diag. simpl.
      rewrite <-(IH (S s)) by lia.
      rewrite (take_S_r _ _ _ Hb), fmap_app, <-app_assoc. done. }
  apply (Hloop (length l) 0). lia.
Qed.

Lemma getitem_Some {B} (l : list B) i b : l !! i = Some b → getitem l i = Return b.
Proof. unfold getitem. by intros ->. Qed.

Lemma getitem_Return {B} (l : list B) i b : getitem l i = Return b → l !! i = Some b.
Proof. unfold getitem. by destruct (l !! i); intros [=->]. Qed.

Ltac destruct_4x4 M H :=
  destruct H as [Hlen_ Hrows_];
  do 5 (try destruct M as [|? M]); try discriminate Hlen_;
  repeat match goal with
  | Hr : Forall _ (_ :: _) |- _ => apply Forall_cons in Hr as [? Hr]
  end;
  repeat match goal with
  | Hr : length ?r = 4 |- _ =>
      do 5 (try destruct r as [|? r]); try discriminate Hr; clear Hr
  end.

Lemma utils_get_transformed_points_fmap M keypoints :
  Spec.is_4x4 M →
  Utils.get_transformed_points keypoints M
  = Return ((λ p, Spec.swap_xy (Spec.apply_point false M (Spec.swap_xy p)))
              <$> keypoints).
Proof.
  intros HM. unfold Utils.get_transformed_points.
  apply for_each_rows. intros acc i k Hk.
  cbv beta. rewrite (getitem_Some _ _ _ Hk).
  destruct_4x4 M HM. destruct k as [[k0 k1] k2]. reflexivity.
Qed.

Lemma karl_get_transformed_points_fmap M keypoints :
  Spec.is_4x4 M →
  Karl.get_transformed_points keypoints M
  = Return ((λ p, Spec.swap_xy (Spec.apply_point true M (Spec.swap_xy p)))
              <$> keypoints).
Proof.
  intros HM. unfold Karl.get_transformed_points.
  apply for_each_rows. intros acc i k Hk.
  cbv beta. rewrite (getitem_Some _ _ _ Hk).
  destruct_4x4 M HM. destruct k as [[k0 k1] k2]. reflexivity.
Qed.

Lemma Qc_of_Z_0 : Qc_of_Z 0 = 0%Qc.
Proof. by apply Qc_is_canon. Qed.
Lemma Qc_of_Z_1 : Qc_of_Z 1 = 1%Qc.
Proof. by apply Qc_is_canon. Qed.

Lemma is_4x4_identity : Spec.is_4x4 Spec.identityTransform.
Proof. split; [done|]. repeat constructor. Qed.

Lemma identity_point normalize (p : Qc * Qc * Qc) :
  Spec.swap_xy (Spec.apply_point normalize Spec.identityTransform (Spec.swap_xy p)) = p.
Proof.
  destruct p as [[a b] c].
  unfold Spec.apply_point, Spec.identityTransform, Spec.mat_vec, Spec.homogenize, Spec.swap_xy, qmatrix, c0, c1, c2, Np.sum.
  simpl. rewrite Qc_of_Z_0, Qc_of_Z_1.
  destruct normalize; simpl; repeat f_equal; try field; try ring; done.
Qed.





(** C6. Under the identity transform both applicators return the input
    cloud itself, row for row and in the same order (exactly, in the exact
    arithmetic of the embedding). *)
Theorem identity_transform_returns_input (cloud : list (Qc * Qc * Qc)) :
  Utils.get_transformed_points cloud Spec.identityTransform = Return cloud
  ∧ Karl.get_transformed_points cloud Spec.identityTransform = Return cloud.
Proof.
  rewrite utils_get_transformed_points_fmap, karl_get_transformed_points_fmap
    by apply is_4x4_identity.
  split; f_equal.
  - rewrite <-(list_fmap_id cloud) at 2. apply list_fmap_ext.
    intros _ p _. apply identity_point.
  - rewrite <-(list_fmap_id cloud) at 2. apply list_fmap_ext.
    intros _ p _. apply identity_point.
Qed.

Lemma for_each_invariant {B S} (P : S → Prop) (body : S → B → result S)
    (l : list B) (a r : S) :
  (∀ a x a', body a x = Return a' → P a → P a') →
  P a → for_each body l a = Return r → P r.
Proof.
  intros Hbody. revert a. induction l as [|x l IH]; intros a Ha; simpl.
  - by intros [= <-].
  - destruct (body a x) as [a'|e] eqn:Hax; simpl; [|done].
    apply IH. by eapply Hbody.
Qed.

Ltac length_step H :=
  unfold mbind, result_bind in H;
  repeat case_match; simplify_eq; by rewrite length_insert.

(** X3. Whatever the matrix, an applicator that returns has produced as
    many rows as it was given. *)
Theorem get_transformed_points_length (keypoints out : list (Qc * Qc * Qc))
    (H_matrix : list (list Qc)) :
  (Utils.get_transformed_points keypoints H_matrix = Return out →
   length out = length keypoints)
  ∧ (Karl.get_transformed_points keypoints H_matrix = Return out →
     length out = length keypoints).
Proof.
  split; intros Hrun;
    (eapply (for_each_invariant (λ tp, length tp = length keypoints));
     [|apply length_replicate|exact Hrun]);
    intros acc i acc' Hstep <-; length_step Hstep.
Qed.

Lemma get_transformed_points_length_witness :
  length (qcloud [(3, 5, 5)%Z]) = length (qcloud [(3, 4, 5)%Z]).
Proof.
  apply (get_transformed_points_length (qcloud [(3, 4, 5)%Z])
           (qcloud [(3, 5, 5)%Z]) (Spec.translation 1 0 0)).
  compute_done.
Defined.

(** ** The nearest-match helper *)

Lemma find_closest_3d_match_in x0 y0 m q :
  Common.find_closest_3d_match x0 y0 m = Return q → q ∈ m.
Proof.
  unfold Common.find_closest_3d_match.
  destruct (Np.sub2 _ _) as [diff|e]; simpl; [|done].
  intros Hq%getitem_Return. by eapply list_elem_of_lookup_2.
Qed.

(** X2. The index that [np.argmin] returns for the two column sums is 0 or
    1, whatever the cloud and the query: the function returns row 0, or
    behaves as [matrix_3d[1]]. *)
Theorem find_closest_3d_match_first_two x0 y0 v m :
  Common.find_closest_3d_match x0 y0 (v :: m) = Return v
  ∨ Common.find_closest_3d_match x0 y0 (v :: m) = getitem (v :: m) 1.
Proof.
  unfold Common.find_closest_3d_match, Np.sum_axis0, Np.argmin. simpl.
  case_decide; [by right|by left].
Qed.

Lemma get_3d_kps_in {A} `{EqDecision A} (voxels : list (A * A * A))
    (kps : list (A * A)) (p : A * A * A) :
  (p ∈ Utils.get_3d_kps voxels kps → p ∈ voxels)
  ∧ (p ∈ Karl.get_3d_kps voxels kps → p ∈ voxels).
Proof.
  rewrite utils_get_3d_kps_omap, karl_get_3d_kps_omap.
  split; intros (i & _ & Hi)%list_elem_of_omap;
    by eapply first_match_elem_of.
Qed.

(** C10. Every row that either [get_3d_kps] returns is a row of the input
    cloud, and so is the row that [find_closest_3d_match] returns whenever it
    returns one: neither lookup builds or alters a point. *)
Theorem lookup_results_in_cloud {A} `{EqDecision A}
    (voxels : list (A * A * A)) (kps : list (A * A)) (p : A * A * A)
    (x0 y0 : Qc) (matrix_3d : list (Qc * Qc * Qc)) (q : Qc * Qc * Qc) :
  (p ∈ Utils.get_3d_kps voxels kps → p ∈ voxels)
  ∧ (p ∈ Karl.get_3d_kps voxels kps → p ∈ voxels)
  ∧ (Utils.find_closest_3d_match x0 y0 matrix_3d = Return q → q ∈ matrix_3d)
  ∧ (Karl.find_closest_3d_match x0 y0 matrix_3d = Return q → q ∈ matrix_3d).
Proof.
  pose proof (get_3d_kps_in voxels kps p) as [??].
  repeat split; try done; apply find_closest_3d_match_in.
Qed.

Lemma lookup_results_in_cloud_witness :
  (5, 5, 2)%Z ∈ [(0, 0, 1)%Z; (5, 5, 2)%Z]
  ∧ qpoint (0, 0, 1)%Z ∈ qcloud [(0, 0, 1)%Z; (5, 5, 2)%Z; (10, 10, 3)%Z].
Proof.
  pose proof (lookup_results_in_cloud
    [(0, 0, 1)%Z; (5, 5, 2)%Z] [(5, 5)%Z] (5, 5, 2)%Z
    (Qc_of_Z 10) (Qc_of_Z 10)
    (qcloud [(0, 0, 1)%Z; (5, 5, 2)%Z; (10, 10, 3)%Z]) (qpoint (0, 0, 1)%Z))
    as (Hu & _ & Hf & _).
  split.
  - apply Hu. apply list_elem_of_In. simpl. auto.
  - apply Hf. compute_done.
Defined.

(** C5, at the failing input. For the query [(10,10)] and the cloud
    [(0,0,1); (5,5,2); (10,10,3)] the function returns the row [(0,0,1)], at
    squared distance 200, although the row [(10,10,3)] is at distance 0: the
    sum runs over [axis=0], so [np.argmin] compares the two column sums (125
    and 125 here) and the index is 0 or 1. *)
Theorem find_closest_3d_match_not_nearest :
  Utils.find_closest_3d_match (Qc_of_Z 10) (Qc_of_Z 10)
    (qcloud [(0, 0, 1)%Z; (5, 5, 2)%Z; (10, 10, 3)%Z])
  = Return (qpoint (0, 0, 1)%Z)
  ∧ Karl.find_closest_3d_match (Qc_of_Z 10) (Qc_of_Z 10)
      (qcloud [(0, 0, 1)%Z; (5, 5, 2)%Z; (10, 10, 3)%Z])
    = Return (qpoint (0, 0, 1)%Z)
  ∧ Spec.nearestMatch (Qc_of_Z 10) (Qc_of_Z 10)
      (qcloud [(0, 0, 1)%Z; (5, 5, 2)%Z; (10, 10, 3)%Z])
    = Some (qpoint (10, 10, 3)%Z)
  ∧ Spec.dist2 (Qc_of_Z 10) (Qc_of_Z 10) (qpoint (10, 10, 3)%Z) = Qc_of_Z 0
  ∧ Spec.dist2 (Qc_of_Z 10) (Qc_of_Z 10) (qpoint (0, 0, 1)%Z) = Qc_of_Z 200.
Proof. repeat split; compute_done. Qed.

(** On a cloud of one row the index 1 is out of range. *)
Example find_closest_3d_match_index_error :
  Common.find_closest_3d_match (Qc_of_Z 1) (Qc_of_Z 5) (qcloud [(0, 5, 1)%Z])
  = Raise IndexError.
Proof. compute_done. Qed.

(** ** The module-level loops *)

Lemma for_each_ext {B S} (f g : S → B → result S) (l : list B) (a : S) :
  (∀ a x, f a x = g a x) → for_each f l a = for_each g l a.
Proof.
  intros Hfg. revert a. induction l as [|x l IH]; intros a; simpl; [done|].
  rewrite Hfg. destruct (g a x); simpl; [apply IH|done].
Qed.

Section script_facts.
Context {A : Type} `{EqDecision A}.
Context {Image Matrix : Type}.
Variable detect : Image → list (A * A).
Variable mathching_skimage : Image → Image → list (nat * nat).
Variable homo_rigid_transform_3D :
  list (A * A * A) → list (A * A * A) → Matrix.
Variable homo3d_get_transformed_points :
  list (A * A * A) → Matrix → list (A * A * A).
Implicit Types (v : list (A * A * A)) (vs : list (list (A * A * A))).
Implicit Types (hs : list Matrix).

(** X1. Every iteration of the H-matrix loop reads the clouds of frames 0
    and 1 only: the transforms it returns do not depend on the clouds of the
    later frames. *)
Theorem h_matrix_loop_first_two (cv2_imgs : list Image) v0 v1 vs vs' :
  Karl.h_matrix_loop detect mathching_skimage homo_rigid_transform_3D
    cv2_imgs (v0 :: v1 :: vs)
  = Karl.h_matrix_loop detect mathching_skimage homo_rigid_transform_3D
      cv2_imgs (v0 :: v1 :: vs').
Proof. unfold Karl.h_matrix_loop. by apply for_each_ext. Qed.

Lemma register_loop v0 vs hs n s :
  s + n = length vs → length vs ≤ length hs →
  for_each
    (λ new_3d_pts i,
       if decide (i ≠ 0) then
         voxel ← getitem (v0 :: vs) i;
         h ← getitem hs (i - 1);
         Return (new_3d_pts ++ [homo3d_get_transformed_points voxel h])
       else Return new_3d_pts)
    (seq (S s) n)
    (v0 :: zip_with homo3d_get_transformed_points (take s vs) (take s hs))
  = Return (v0 :: zip_with homo3d_get_transformed_points vs hs).
Proof.
  revert s. induction n as [|n IH]; intros s Hs Hlen; simpl.
  - assert (s = length vs) as -> by lia.
    by rewrite firstn_all, zip_with_take_r.
  - destruct (lookup_lt_is_Some_2 vs s) as [v Hv]; [lia|].
    destruct (lookup_lt_is_Some_2 hs s) as [h Hh]; [lia|].
    rewrite (getitem_Some (v0 :: vs) (S s) v) by done.
    rewrite Nat.sub_0_r, (getitem_Some _ _ _ Hh). simpl.
    rewrite <-(IH (S s)) by lia.
    rewrite (take_S_r _ _ _ Hv), (take_S_r _ _ _ Hh).
    rewrite zip_with_app by (rewrite !length_take; lia). done.
Qed.

Lemma register_zip_with v0 vs hs :
  length vs ≤ length hs →
  Karl.register homo3d_get_transformed_points (v0 :: vs) hs
  = Return (v0 :: zip_with homo3d_get_transformed_points vs hs).
Proof.
  intros Hlen. unfold Karl.register. simpl.
  apply (register_loop v0 vs hs (length vs) 0); [lia|done].
Qed.

End script_facts.

(** C3, at the failing input. Three frames whose clouds hold the pixel
    [(0,0)] at depths 10, 20 and 30, one keypoint per image and one match per
    pair; the solver is a probe that returns the two correspondence lists it
    is given. The transform of the pair (frame 1, frame 2) is solved from the
    correspondences of clouds 1 and 0, as the one of the pair
    (frame 0, frame 1): lines 252-253 index [input_voxels] by the constants
    0 and 1, not by [i] and [i+1], and the cloud of frame 2 is never read. *)
Theorem h_matrix_loop_reads_clouds_0_and_1 :
  let detect := λ _ : nat, [(0, 0)%Z] in
  let mathching_skimage := λ _ _ : nat, [(0, 0)] in
  let homo_rigid_transform_3D :=
    λ source target : list (Z * Z * Z), (source, target) in
  Karl.h_matrix_loop detect mathching_skimage homo_rigid_transform_3D
    [0; 1; 2]
    [[(0, 0, 10)%Z]; [(0, 0, 20)%Z]; [(0, 0, 30)%Z]]
  = Return [([(0, 0, 20)%Z], [(0, 0, 10)%Z]);
            ([(0, 0, 20)%Z], [(0, 0, 10)%Z])].
Proof. reflexivity. Qed.

(** C1, as stated, fails: with both pairwise transforms the translation by
    [(1,0,0)], the cloud of frame 2 is emitted at offset [(1,0,0)]; the
    composition of the two transforms is the translation by [(2,0,0)], which
    would place it at [(2,0,0)]. *)
Lemma register_does_not_compose :
  Karl.register (Spec.apply false)
    [qcloud [(0, 0, 5)%Z]; qcloud [(0, 0, 5)%Z]; qcloud [(0, 0, 5)%Z]]
    [Spec.translation 1 0 0; Spec.translation 1 0 0]
  = Return [qcloud [(0, 0, 5)%Z]; qcloud [(1, 0, 5)%Z]; qcloud [(1, 0, 5)%Z]]
  ∧ Np.dot (Spec.translation 1 0 0) (Spec.translation 1 0 0)
    = Return (Spec.translation 2 0 0)
  ∧ Spec.apply false (qcloud [(0, 0, 5)%Z]) (Spec.translation 2 0 0)
    = qcloud [(2, 0, 5)%Z]
  ∧ qcloud [(1, 0, 5)%Z] ≠ qcloud [(2, 0, 5)%Z].
Proof. repeat split; compute_done. Qed.

(** C1, amended. Frame 0's cloud is emitted unchanged, and for every frame
    [i > 0] the emitted cloud is frame [i]'s raw cloud transformed by the one
    pairwise transform [h_matrixes[i-1]] of the pair (i-1, i); no transforms
    are composed. *)
Theorem register_pairwise_only {A Matrix : Type}
    (homo3d_get_transformed_points : list (A * A * A) → Matrix
                                     → list (A * A * A))
    (first : list (A * A * A)) (rest : list (list (A * A * A)))
    (h_matrixes : list Matrix) :
  length rest ≤ length h_matrixes →
  Karl.register homo3d_get_transformed_points (first :: rest) h_matrixes
  = Return (first :: zip_with homo3d_get_transformed_points rest h_matrixes).
Proof. apply register_zip_with. Qed.

Lemma register_pairwise_only_witness :
  Karl.register (Spec.apply false)
    [qcloud [(0, 0, 5)%Z]; qcloud [(0, 0, 5)%Z]; qcloud [(0, 0, 5)%Z]]
    [Spec.translation 1 0 0; Spec.translation 1 0 0]
  = Return (qcloud [(0, 0, 5)%Z]
            :: zip_with (Spec.apply false)
                 [qcloud [(0, 0, 5)%Z]; qcloud [(0, 0, 5)%Z]]
                 [Spec.translation 1 0 0; Spec.translation 1 0 0]).
Proof.
  apply (register_pairwise_only (Spec.apply false)). simpl. lia.
Defined.

(** ** Lookups in a converted cloud *)

Lemma depth_to_voxel_scan_pixels img scale :
  Spec.rectangular img →
  Common.depth_to_voxel img scale
  = Spec.scan_pixels (length img) (Np.shape2 img).2
      (Spec.scaled_depth img scale).
Proof. apply depth_to_voxel_scan. Qed.

Lemma scan_pixels_elem_of h w z (p : Z * Z * Z) :
  p ∈ Spec.scan_pixels h w z ↔
  ∃ x y, y < h ∧ x < w ∧ z y x ≠ 0%Z ∧ p = (Z.of_nat x, Z.of_nat y, z y x).
Proof.
  unfold Spec.scan_pixels. rewrite list_elem_of_bind. split.
  - intros (y & (x & Hp & Hx%elem_of_seq)%list_elem_of_bind & Hy%elem_of_seq).
    case_decide; [|by apply not_elem_of_nil in Hp].
    apply list_elem_of_singleton in Hp. exists x, y.
    repeat split; try done; lia.
  - intros (x & y & Hy & Hx & Hd & ->). exists y.
    split; [|apply elem_of_seq; lia].
    apply list_elem_of_bind. exists x. split; [|apply elem_of_seq; lia].
    rewrite decide_True by done. by apply list_elem_of_singleton.
Qed.

Lemma scan_pixels_NoDup h w z : NoDup (Spec.scan_pixels h w z).
Proof.
  unfold Spec.scan_pixels. apply NoDup_bind; [| |apply NoDup_seq].
  - intros y1 y2 p _ _ (x1 & Hp1 & _)%list_elem_of_bind
      (x2 & Hp2 & _)%list_elem_of_bind.
    repeat case_decide; try by (exfalso; eapply not_elem_of_nil; eauto).
    apply list_elem_of_singleton in Hp1, Hp2. simplify_eq. lia.
  - intros y _. apply NoDup_bind; [| |apply NoDup_seq].
    + intros x1 x2 p _ _ Hp1 Hp2.
      repeat case_decide; try by (exfalso; eapply not_elem_of_nil; eauto).
      apply list_elem_of_singleton in Hp1, Hp2. simplify_eq. lia.
    + intros x _. case_decide; [apply NoDup_singleton|constructor].
Qed.

Lemma scan_pixels_keys_NoDup h w z :
  NoDup (stored_xy <$> Spec.scan_pixels h w z).
Proof.
  apply NoDup_fmap_2_strong; [|apply scan_pixels_NoDup].
  intros p q (x1 & y1 & _ & _ & _ & ->)%scan_pixels_elem_of
    (x2 & y2 & _ & _ & _ & ->)%scan_pixels_elem_of.
  unfold stored_xy, c0, c1. simpl. intros [= Hx%Nat2Z.inj Hy%Nat2Z.inj].
  by subst.
Qed.

Section key_facts.
Context {A : Type} `{EqDecision A}.
Implicit Types (v : A * A * A) (cloud : list (A * A * A)).

Lemma first_match_unique_key cloud v :
  NoDup (stored_xy <$> cloud) → v ∈ cloud →
  Spec.first_match cloud (stored_xy v) = Some v.
Proof.
  intros Hnd (n & Hn)%list_elem_of_lookup_1. apply first_match_Some.
  exists n. repeat split; [done|]. intros m v' Hm Hlt Hkey.
  assert (m = n); [|lia].
  eapply (NoDup_lookup _ _ _ _ Hnd); rewrite list_lookup_fmap.
  - by rewrite Hm.
  - rewrite Hn. simpl. by rewrite Hkey.
Qed.

Lemma omap_fmap_section {B C} (f : C → option B) (g : B → C) (l : list B) :
  (∀ b, b ∈ l → f (g b) = Some b) → omap f (g <$> l) = l.
Proof.
  induction l as [|b l IH]; intros Hfg; csimpl; [done|].
  rewrite Hfg by left. csimpl. f_equal. apply IH. intros b' Hb'.
  apply Hfg. by right.
Qed.

Lemma first_match_key cloud r v :
  Spec.first_match cloud r = Some v → stored_xy v = r.
Proof. by intros (n & _ & Hr & _)%first_match_Some. Qed.

Lemma first_match_is_Some cloud r :
  is_Some (Spec.first_match cloud r) ↔ r ∈ stored_xy <$> cloud.
Proof.
  rewrite list_elem_of_fmap. split.
  - intros [v Hv]. exists v. split.
    + symmetry. by eapply first_match_key.
    + by eapply first_match_elem_of.
  - intros (v & -> & Hv). destruct (Spec.first_match cloud (stored_xy v)) eqn:E; [done|].
    rewrite first_match_None in E. by destruct (E v Hv).
Qed.

Lemma fmap_omap_keys {C} (key : A * A * A → C) (f : C → option (A * A * A))
    (P : C → Prop) `{∀ c, Decision (P c)} (l : list C) :
  (∀ c v, f c = Some v → key v = c) →
  (∀ c, is_Some (f c) ↔ P c) →
  key <$> omap f l = filter P l.
Proof.
  intros Hkey HP. induction l as [|c l IH]; csimpl; [done|].
  rewrite filter_cons. destruct (f c) as [v|] eqn:E; csimpl.
  - rewrite decide_True by (apply HP; by rewrite E).
    rewrite IH. f_equal. by apply Hkey.
  - rewrite decide_False; [done|]. intros Hc%HP. rewrite E in Hc.
    by destruct Hc.
Qed.

End key_facts.

(** X5. Each request is answered on its own: the lookup of a concatenation
    of two request lists is the concatenation of the two lookups, in both
    versions of [get_3d_kps]. *)
Theorem get_3d_kps_app {A} `{EqDecision A} (voxels : list (A * A * A))
    (kps1 kps2 : list (A * A)) :
  Utils.get_3d_kps voxels (kps1 ++ kps2)
  = Utils.get_3d_kps voxels kps1 ++ Utils.get_3d_kps voxels kps2
  ∧ Karl.get_3d_kps voxels (kps1 ++ kps2)
    = Karl.get_3d_kps voxels kps1 ++ Karl.get_3d_kps voxels kps2.
Proof.
  rewrite !utils_get_3d_kps_omap, !karl_get_3d_kps_omap.
  split; apply omap_app.
Qed.

(** X6. The stored pixel coordinates of the rows that [get_3d_kps] returns
    are exactly the requests that occur among the stored coordinates of the
    cloud, in request order and with their repetitions ([utils.py] compares a
    request as [(x,y)], [karl-homo-toy-cars.py] as [(y,x)]). *)
Theorem get_3d_kps_keys {A} `{EqDecision A} (voxels : list (A * A * A))
    (kps : list (A * A)) :
  stored_xy <$> Utils.get_3d_kps voxels kps
  = filter (λ i, i ∈ stored_xy <$> voxels) kps
  ∧ (λ v, (c1 v, c0 v)) <$> Karl.get_3d_kps voxels kps
    = filter (λ i, (i.2, i.1) ∈ stored_xy <$> voxels) kps.
Proof.
  rewrite utils_get_3d_kps_omap, karl_get_3d_kps_omap. split.
  - apply fmap_omap_keys.
    + intros c v. apply first_match_key.
    + intros c. apply first_match_is_Some.
  - apply fmap_omap_keys.
    + intros [a b] v Hv%first_match_key. simpl in *.
      unfold stored_xy in Hv. by simplify_eq.
    + intros c. apply first_match_is_Some.
Qed.

(** X7. In a cloud where no two rows share their stored [(x,y)], looking up
    the stored coordinates of all rows returns the cloud itself (for
    [karl-homo-toy-cars.py], the coordinates given as [(y,x)]). *)
Theorem get_3d_kps_round_trip {A} `{EqDecision A} (cloud : list (A * A * A)) :
  NoDup (stored_xy <$> cloud) →
  Utils.get_3d_kps cloud (stored_xy <$> cloud) = cloud
  ∧ Karl.get_3d_kps cloud ((λ v, (c1 v, c0 v)) <$> cloud) = cloud.
Proof.
  intros Hnd. rewrite utils_get_3d_kps_omap, karl_get_3d_kps_omap.
  split; apply omap_fmap_section; intros v Hv;
    by apply first_match_unique_key.
Qed.

Lemma get_3d_kps_round_trip_witness :
  Utils.get_3d_kps [(1, 0, 5)%Z; (0, 1, 5)%Z] [(1, 0)%Z; (0, 1)%Z]
  = [(1, 0, 5)%Z; (0, 1, 5)%Z].
Proof.
  apply (get_3d_kps_round_trip [(1, 0, 5)%Z; (0, 1, 5)%Z]).
  simpl. apply NoDup_cons. split; [|apply NoDup_singleton].
  intros Hin%list_elem_of_singleton. discriminate Hin.
Defined.

(** With a repeated stored coordinate the first row answers for the later
    ones. *)
Example get_3d_kps_repeated_key :
  Utils.get_3d_kps [(1, 2, 5)%Z; (1, 2, 7)%Z] [(1, 2)%Z; (1, 2)%Z]
  = [(1, 2, 5)%Z; (1, 2, 5)%Z].
Proof. reflexivity. Qed.

Lemma int16_range z : Spec.fits_int16 (Np.int16 z).
Proof.
  unfold Spec.fits_int16, Np.int16.
  pose proof (Z.mod_pos_bound (z + 32768) 65536). lia.
Qed.

(** X8. In the cloud of a rectangular depth image (integer scale that fits
    [int16]) no two points share their [(x,y)], and every point lies inside the image, [0 <= x < width] and
    [0 <= y < height], with a nonzero [z] in the [int16] range. *)
Theorem depth_to_voxel_keys_unique img scale :
  Spec.rectangular img →
  Spec.fits_int16 scale →
  NoDup (stored_xy <$> Utils.depth_to_voxel img scale)
  ∧ Forall (λ p, (0 ≤ c0 p < Z.of_nat (Np.shape2 img).2)%Z
                 ∧ (0 ≤ c1 p < Z.of_nat (length img))%Z
                 ∧ c2 p ≠ 0%Z ∧ Spec.fits_int16 (c2 p))
      (Utils.depth_to_voxel img scale).
Proof.
  intros Hrect _. unfold Utils.depth_to_voxel.
  rewrite depth_to_voxel_scan_pixels by done. split.
  - apply scan_pixels_keys_NoDup.
  - apply Forall_forall.
    intros p (x & y & Hy & Hx & Hz & ->)%scan_pixels_elem_of.
    unfold c0, c1, c2, Np.shape2 in *. simpl in *.
    split; [lia|]. split; [lia|]. split; [done|]. apply int16_range.
Qed.

Lemma depth_to_voxel_keys_unique_witness :
  NoDup (stored_xy <$> Utils.depth_to_voxel [[0; 5]; [5; 0]]%Z 1).
Proof.
  apply (depth_to_voxel_keys_unique [[0; 5]; [5; 0]]%Z 1).
  - repeat constructor.
  - unfold Spec.fits_int16; lia.
Defined.

Lemma depth_to_voxel_lookup_one img scale (a b : Z) :
  Spec.rectangular img →
  Spec.first_match (Common.depth_to_voxel img scale) (a, b)
  = if decide ((0 ≤ a < Z.of_nat (Np.shape2 img).2)%Z
               ∧ (0 ≤ b < Z.of_nat (length img))%Z
               ∧ Spec.scaled_depth img scale (Z.to_nat b) (Z.to_nat a) ≠ 0%Z)
    then Some (a, b, Spec.scaled_depth img scale (Z.to_nat b) (Z.to_nat a))
    else None.
Proof.
  intros Hrect. rewrite depth_to_voxel_scan_pixels by done.
  set (z := Spec.scaled_depth img scale).
  case_decide as Hc.
  - destruct Hc as (Ha & Hb & Hz).
    apply (first_match_unique_key _ (a, b, z (Z.to_nat b) (Z.to_nat a))).
    + apply scan_pixels_keys_NoDup.
    + apply scan_pixels_elem_of. exists (Z.to_nat a), (Z.to_nat b).
      split; [lia|]. split; [lia|]. split; [done|].
      by rewrite !Z2Nat.id by lia.
  - apply first_match_None.
    intros v (x & y & Hy & Hx & Hz & ->)%scan_pixels_elem_of [= <- <-].
    apply Hc. unfold c0, c1, Np.shape2 in *. simpl in *. rewrite !Nat2Z.id. split; [lia|]. split; [lia|]. done.
Qed.

(** X9. Looking up one pixel [(a, b)] in the cloud of a rectangular depth
    image (integer scale that fits [int16]) returns the single point [(a, b, z)] when the pixel lies inside
    the image and its scaled [int16] depth [z] is not zero, and nothing
    otherwise ([karl-homo-toy-cars.py] takes the request as [(b, a)]). *)
Theorem get_3d_kps_of_depth_to_voxel img scale (a b : Z) :
  Spec.rectangular img →
  Spec.fits_int16 scale →
  Utils.get_3d_kps (Utils.depth_to_voxel img scale) [(a, b)]
  = (if decide ((0 ≤ a < Z.of_nat (Np.shape2 img).2)%Z
                ∧ (0 ≤ b < Z.of_nat (length img))%Z
                ∧ Spec.scaled_depth img scale (Z.to_nat b) (Z.to_nat a)
                  ≠ 0%Z)
     then [(a, b, Spec.scaled_depth img scale (Z.to_nat b) (Z.to_nat a))]
     else [])
  ∧ Karl.get_3d_kps (Karl.depth_to_voxel img scale) [(b, a)]
    = Utils.get_3d_kps (Utils.depth_to_voxel img scale) [(a, b)].
Proof.
  intros Hrect _. rewrite utils_get_3d_kps_omap, karl_get_3d_kps_omap.
  unfold Utils.depth_to_voxel, Karl.depth_to_voxel. csimpl.
  rewrite depth_to_voxel_lookup_one by done.
  split; [|done].
  change (Np.shape2 img).2 with (length (default [] (head img))).
  by destruct (decide _).
Qed.

Lemma get_3d_kps_of_depth_to_voxel_witness :
  Utils.get_3d_kps (Utils.depth_to_voxel [[0; 5]; [5; 0]]%Z 1) [(1, 0)%Z]
  = [(1, 0, 5)%Z].
Proof.
  apply (get_3d_kps_of_depth_to_voxel [[0; 5]; [5; 0]]%Z 1 1 0).
  - repeat constructor.
  - unfold Spec.fits_int16; lia.
Defined.

(** ** More on the transform applicators *)

Lemma for_each_first_raises {B S} (body : S → B → result S) x l a e :
  body a x = Raise e → for_each body (x :: l) a = Raise e.
Proof. intros Hx. simpl. by rewrite Hx. Qed.

Lemma utils_get_transformed_points_rows M keypoints :
  3 ≤ length M → Forall (λ row, length row = 4) M →
  Utils.get_transformed_points keypoints M
  = Return ((λ p, Spec.swap_xy (Spec.apply_point false M (Spec.swap_xy p)))
              <$> keypoints).
Proof.
  intros Hlen Hrows. unfold Utils.get_transformed_points.
  apply for_each_rows. intros acc i k Hk.
  cbv beta. rewrite (getitem_Some _ _ _ Hk).
  destruct M as [|r0 [|r1 [|r2 M]]]; simpl in Hlen; try lia.
  apply Forall_cons in Hrows as [H0 Hrows].
  apply Forall_cons in Hrows as [H1 Hrows].
  apply Forall_cons in Hrows as [H2 Hrows].
  do 5 (try destruct r0 as [|? r0]); try discriminate H0.
  do 5 (try destruct r1 as [|? r1]); try discriminate H1.
  do 5 (try destruct r2 as [|? r2]); try discriminate H2.
  destruct k as [[k0 k1] k2]. reflexivity.
Qed.

Lemma apply_point_false_take M p :
  3 ≤ length M →
  Spec.apply_point false (take 3 M) p = Spec.apply_point false M p.
Proof.
  intros Hlen. destruct M as [|r0 [|r1 [|r2 M]]]; simpl in Hlen; try lia.
  reflexivity.
Qed.

(** X10. The applicator of [utils.py] reads the first three rows of the
    matrix only: for every matrix of at least three rows of four entries it
    returns, row for row, the first three components of the product (first
    two columns exchanged on input and output), and the result is the one
    for the matrix cut to its first three rows. *)
Theorem get_transformed_points_three_rows M keypoints :
  3 ≤ length M → Forall (λ row, length row = 4) M →
  Utils.get_transformed_points keypoints M
  = Return ((λ p, Spec.swap_xy (Spec.apply_point false M (Spec.swap_xy p)))
              <$> keypoints)
  ∧ Utils.get_transformed_points keypoints (take 3 M)
    = Utils.get_transformed_points keypoints M.
Proof.
  intros Hlen Hrows.
  rewrite (utils_get_transformed_points_rows M) by done.
  rewrite (utils_get_transformed_points_rows (take 3 M)).
  - split; [done|]. f_equal. apply list_fmap_ext. intros _ p _. cbv beta.
    by rewrite apply_point_false_take.
  - rewrite length_take. lia.
  - by apply Forall_take.
Qed.

Lemma get_transformed_points_three_rows_witness :
  Utils.get_transformed_points (qcloud [(3, 4, 5)%Z])
    (qmatrix [[1; 0; 0; 1]; [0; 1; 0; 0]; [0; 0; 1; 0]]%Z)
  = Return (qcloud [(3, 5, 5)%Z]).
Proof.
  refine (eq_trans (proj1 (get_transformed_points_three_rows
    (qmatrix [[1; 0; 0; 1]; [0; 1; 0; 0]; [0; 0; 1; 0]]%Z)
    (qcloud [(3, 4, 5)%Z]) _ _)) _).
  - simpl. lia.
  - repeat constructor.
  - compute_done.
Defined.

Lemma dot_columns_mismatch (r0 : list Qc) (rest b : list (list Qc)) :
  length r0 ≠ length b → Np.dot (r0 :: rest) b = Raise ValueError.
Proof. intros Hne. unfold Np.dot. simpl. by rewrite decide_False. Qed.

(** X11. On an empty cloud every applicator returns the empty cloud,
    whatever the matrix. On a non-empty cloud and a non-empty matrix the
    call raises ValueError when the rows of the matrix do not have four
    entries (three for [get_transformed_pointsv2]), and IndexError when the
    rows have four entries but there are fewer than three of them
    ([utils.py]) or fewer than four ([karl-homo-toy-cars.py], which reads
    the fourth component). *)
Theorem get_transformed_points_errors (k : Qc * Qc * Qc)
    (ks : list (Qc * Qc * Qc)) (r0 : list Qc) (rest H : list (list Qc)) :
  Utils.get_transformed_points [] H = Return []
  ∧ Karl.get_transformed_points [] H = Return []
  ∧ Karl.get_transformed_pointsv2 [] H = Return []
  ∧ (length r0 ≠ 4 →
     Utils.get_transformed_points (k :: ks) (r0 :: rest) = Raise ValueError
     ∧ Karl.get_transformed_points (k :: ks) (r0 :: rest) = Raise ValueError)
  ∧ (length r0 ≠ 3 →
     Karl.get_transformed_pointsv2 (k :: ks) (r0 :: rest) = Raise ValueError)
  ∧ (length r0 = 4 → length rest < 2 →
     Utils.get_transformed_points (k :: ks) (r0 :: rest) = Raise IndexError)
  ∧ (length r0 = 4 → length rest < 3 →
     Karl.get_transformed_points (k :: ks) (r0 :: rest) = Raise IndexError).
Proof.
  split; [done|]. split; [done|]. split; [done|].
  split; [|split; [|split]].
  - intros Hne. split; apply for_each_first_raises; simpl;
      by rewrite dot_columns_mismatch.
  - intros Hne. apply for_each_first_raises; simpl.
    by rewrite dot_columns_mismatch.
  - intros H0 Hrest. apply for_each_first_raises.
    do 5 (try destruct r0 as [|? r0]); try discriminate H0.
    destruct rest as [|r1 [|r2 rest]]; simpl in Hrest; try lia; reflexivity.
  - intros H0 Hrest. apply for_each_first_raises.
    do 5 (try destruct r0 as [|? r0]); try discriminate H0.
    destruct rest as [|r1 [|r2 [|r3 rest]]]; simpl in Hrest; try lia;
      reflexivity.
Qed.

Lemma get_transformed_points_errors_witness :
  Karl.get_transformed_points (qcloud [(3, 4, 5)%Z])
    (qmatrix [[1; 0; 0; 1]; [0; 1; 0; 0]; [0; 0; 1; 0]]%Z)
  = Raise IndexError.
Proof.
  apply (get_transformed_points_errors (qpoint (3, 4, 5)%Z) []
           (Qc_of_Z <$> [1; 0; 0; 1]%Z)
           (qmatrix [[0; 1; 0; 0]; [0; 0; 1; 0]]%Z) []).
  - reflexivity.
  - simpl. lia.
Defined.

Ltac destruct_3x3 M H :=
  let Hl := fresh "Hlen" in
  let Hr := fresh "Hrows" in
  destruct H as [Hl Hr];
  do 4 (try destruct M as [|? M]); try discriminate Hl; clear Hl;
  repeat match goal with
  | Hr : Forall _ (_ :: _) |- _ => apply Forall_cons in Hr as [? Hr]
  end;
  repeat match goal with
  | Hr : length ?r = 3 |- _ =>
      do 4 (try destruct r as [|? r]); try discriminate Hr; clear Hr
  end.

Lemma get_transformed_pointsv2_fmap M keypoints :
  Spec.is_3x3 M →
  Karl.get_transformed_pointsv2 keypoints M
  = Return ((λ p, Spec.swap_xy (Spec.linear_point M (Spec.swap_xy p)))
              <$> keypoints).
Proof.
  intros HM. unfold Karl.get_transformed_pointsv2.
  apply for_each_rows. intros acc i k Hk.
  cbv beta. rewrite (getitem_Some _ _ _ Hk).
  destruct_3x3 M HM. destruct k as [[k0 k1] k2]. reflexivity.
Qed.

Lemma dot_3x3 A B BA :
  Spec.is_3x3 A → Spec.is_3x3 B → Np.dot B A = Return BA →
  Spec.is_3x3 BA
  ∧ ∀ p, Spec.linear_point B (Spec.linear_point A p) = Spec.linear_point BA p.
Proof.
  intros HA HB. destruct_3x3 A HA. destruct_3x3 B HB.
  intros [= <-]. split.
  - split; [done|]. repeat constructor.
  - intros [[x y] z].
    unfold Spec.linear_point, Spec.mat_vec, Np.sum, c0, c1, c2. simpl.
    f_equal; [f_equal|]; ring.
Qed.

Lemma swap_xy_involutive {A} (p : A * A * A) : Spec.swap_xy (Spec.swap_xy p) = p.
Proof. by destruct p as [[??]?]. Qed.

(** X12. [get_transformed_pointsv2] with a 3x3 matrix [M] maps every row
    [p] to the product of [M] and [p], first two columns exchanged on input
    and output; applying it with [A] and then with [B] is applying it once
    with the matrix product [np.dot(B, A)]. *)
Theorem get_transformed_pointsv2_compose A B BA keypoints :
  Spec.is_3x3 A → Spec.is_3x3 B → Np.dot B A = Return BA →
  Karl.get_transformed_pointsv2 keypoints A
  = Return ((λ p, Spec.swap_xy (Spec.linear_point A (Spec.swap_xy p)))
              <$> keypoints)
  ∧ (Karl.get_transformed_pointsv2 keypoints A
       ≫= λ out, Karl.get_transformed_pointsv2 out B)
    = Karl.get_transformed_pointsv2 keypoints BA.
Proof.
  intros HA HB Hdot. destruct (dot_3x3 A B BA HA HB Hdot) as [HBA Hcomp].
  rewrite !get_transformed_pointsv2_fmap by done. split; [done|].
  simpl. rewrite get_transformed_pointsv2_fmap by done. f_equal.
  rewrite <-list_fmap_compose. apply list_fmap_ext. intros _ p _. simpl.
  by rewrite swap_xy_involutive, Hcomp.
Qed.

Lemma get_transformed_pointsv2_compose_witness :
  (Karl.get_transformed_pointsv2 (qcloud [(1, 2, 3)%Z])
     (qmatrix [[1; 1; 0]; [0; 1; 0]; [0; 0; 1]]%Z)
     ≫= λ out, Karl.get_transformed_pointsv2 out
                 (qmatrix [[2; 0; 0]; [0; 1; 0]; [0; 0; 3]]%Z))
  = Karl.get_transformed_pointsv2 (qcloud [(1, 2, 3)%Z])
      (qmatrix [[2; 2; 0]; [0; 1; 0]; [0; 0; 3]]%Z).
Proof.
  apply (get_transformed_pointsv2_compose
           (qmatrix [[1; 1; 0]; [0; 1; 0]; [0; 0; 1]]%Z)
           (qmatrix [[2; 0; 0]; [0; 1; 0]; [0; 0; 3]]%Z)).
  - split; [done|]. repeat constructor.
  - split; [done|]. repeat constructor.
  - compute_done.
Defined.

Ltac destruct_rows4 M H :=
  let Hl := fresh "Hlen" in
  let Hr := fresh "Hrows" in
  destruct H as [Hl Hr];
  do 5 (try destruct M as [|? M]); try discriminate Hl; clear Hl;
  repeat match goal with
  | Hr : Forall _ (_ :: _) |- _ => apply Forall_cons in Hr as [? Hr]
  end;
  repeat match goal with
  | Hr : length ?r = 4 |- _ =>
      do 5 (try destruct r as [|? r]); try discriminate Hr; clear Hr
  end.

Lemma bind_Return {B C} (a : B) (f : B → result C) : (Return a ≫= f) = f a.
Proof. done. Qed.

Lemma dot_4x4_affine A B BA :
  Spec.is_4x4 A → Spec.is_4x4 B → Spec.affine_row A →
  Np.dot B A = Return BA →
  Spec.is_4x4 BA
  ∧ ∀ p, Spec.apply_point false B (Spec.apply_point false A p)
         = Spec.apply_point false BA p.
Proof.
  intros HA HB. destruct_rows4 A HA. destruct_rows4 B HB.
  intros [= -> -> -> ->] [= <-]. split.
  - split; [done|]. repeat constructor.
  - intros [[x y] z].
    unfold Spec.apply_point, Spec.mat_vec, Spec.homogenize, Np.sum, c0, c1, c2.
    simpl. f_equal; [f_equal|]; ring.
Qed.

(** X13. For 4x4 matrices [A] and [B], [A] affine (fourth row
    [0, 0, 0, 1]), applying the applicator of [utils.py] with [A] and then
    with [B] is applying it once with the matrix product [np.dot(B, A)]. *)
Theorem get_transformed_points_compose_affine A B BA keypoints :
  Spec.is_4x4 A → Spec.is_4x4 B → Spec.affine_row A →
  Np.dot B A = Return BA →
  (Utils.get_transformed_points keypoints A
     ≫= λ out, Utils.get_transformed_points out B)
  = Utils.get_transformed_points keypoints BA.
Proof.
  intros HA HB Haff Hdot.
  destruct (dot_4x4_affine A B BA HA HB Haff Hdot) as [HBA Hcomp].
  rewrite !utils_get_transformed_points_fmap by done.
  rewrite bind_Return, utils_get_transformed_points_fmap by done. f_equal.
  rewrite <-list_fmap_compose. apply list_fmap_ext. intros _ p _.
  unfold compose. by rewrite swap_xy_involutive, Hcomp.
Qed.

Lemma get_transformed_points_compose_affine_witness :
  (Utils.get_transformed_points (qcloud [(0, 0, 5)%Z]) (Spec.translation 1 0 0)
     ≫= λ out, Utils.get_transformed_points out (Spec.translation 1 0 0))
  = Utils.get_transformed_points (qcloud [(0, 0, 5)%Z])
      (Spec.translation 2 0 0).
Proof.
  apply (get_transformed_points_compose_affine
           (Spec.translation 1 0 0) (Spec.translation 1 0 0)).
  - split; [done|]. repeat constructor.
  - split; [done|]. repeat constructor.
  - unfold Spec.affine_row. simpl. by rewrite Qc_of_Z_0, Qc_of_Z_1.
  - compute_done.
Defined.

(** Without the affine fourth row the two differ: the fourth component of
    the first product is dropped, not carried over. *)
Example get_transformed_points_compose_not_affine :
  (Utils.get_transformed_points (qcloud [(1, 1, 1)%Z])
     (qmatrix [[1; 0; 0; 0]; [0; 1; 0; 0]; [0; 0; 1; 0]; [0; 0; 0; 2]]%Z)
     ≫= λ out, Utils.get_transformed_points out (Spec.translation 1 0 0))
  = Return (qcloud [(1, 2, 1)%Z])
  ∧ Np.dot (Spec.translation 1 0 0)
      (qmatrix [[1; 0; 0; 0]; [0; 1; 0; 0]; [0; 0; 1; 0]; [0; 0; 0; 2]]%Z)
    = Return
        (qmatrix [[1; 0; 0; 2]; [0; 1; 0; 0]; [0; 0; 1; 0]; [0; 0; 0; 2]]%Z)
  ∧ Utils.get_transformed_points (qcloud [(1, 1, 1)%Z])
      (qmatrix [[1; 0; 0; 2]; [0; 1; 0; 0]; [0; 0; 1; 0]; [0; 0; 0; 2]]%Z)
    = Return (qcloud [(1, 3, 1)%Z]).
Proof. repeat split; compute_done. Qed.

Lemma persp_ratio (b0 b1 b2 b3 d0 d1 d2 d3 u0 u1 u2 w : Qc) :
  w ≠ 0%Qc → (d0 * u0 + d1 * u1 + d2 * u2 + d3 * w)%Qc ≠ 0%Qc →
  ((b0 * (u0 / w) + (b1 * (u1 / w) + (b2 * (u2 / w) + (b3 * 1 + 0))))
   / (d0 * (u0 / w) + (d1 * (u1 / w) + (d2 * (u2 / w) + (d3 * 1 + 0)))))%Qc
  = ((b0 * u0 + b1 * u1 + b2 * u2 + b3 * w)
     / (d0 * u0 + d1 * u1 + d2 * u2 + d3 * w))%Qc.
Proof.
  intros Hw Hd. field. by split.
Qed.

Lemma dot_4x4_projective A B BA p :
  Spec.is_4x4 A → Spec.is_4x4 B → Np.dot B A = Return BA →
  Spec.hom_w A p ≠ 0%Qc → Spec.hom_w BA p ≠ 0%Qc →
  Spec.apply_point true B (Spec.apply_point true A p)
  = Spec.apply_point true BA p.
Proof.
  intros HA HB. destruct_rows4 A HA. destruct_rows4 B HB.
  intros [= <-]. destruct p as [[x y] z].
  unfold Spec.hom_w, Spec.apply_point, Spec.mat_vec, Spec.homogenize, Np.sum,
    c0, c1, c2. simpl. intros Hw Hw'.
  f_equal; [f_equal|];
    (etransitivity;
     [apply persp_ratio;
      [exact Hw|intros He; apply Hw'; etransitivity; [|exact He]; ring]
     |f_equal; ring]).
Qed.

Lemma dot_4x4_shape A B BA :
  Spec.is_4x4 A → Spec.is_4x4 B → Np.dot B A = Return BA → Spec.is_4x4 BA.
Proof.
  intros HA HB. destruct_rows4 A HA. destruct_rows4 B HB.
  intros [= <-]. split; [done|]. repeat constructor.
Qed.

Lemma karl_point_hom_w M p :
  Spec.hom_w M (Spec.swap_xy (Spec.swap_xy p)) = Spec.hom_w M p.
Proof. by rewrite swap_xy_involutive. Qed.

(** X14. For 4x4 matrices [A] and [B], applying the normalizing applicator
    of [karl-homo-toy-cars.py] with [A] and then with [B] is applying it
    once with the matrix product [np.dot(B, A)], on every cloud whose rows
    have a nonzero fourth component under [A] and under the product. *)
Theorem get_transformed_points_compose_projective A B BA keypoints :
  Spec.is_4x4 A → Spec.is_4x4 B → Np.dot B A = Return BA →
  Forall (λ p, Spec.hom_w A (Spec.swap_xy p) ≠ 0%Qc
               ∧ Spec.hom_w BA (Spec.swap_xy p) ≠ 0%Qc) keypoints →
  (Karl.get_transformed_points keypoints A
     ≫= λ out, Karl.get_transformed_points out B)
  = Karl.get_transformed_points keypoints BA.
Proof.
  intros HA HB Hdot Hw.
  pose proof (dot_4x4_shape A B BA HA HB Hdot) as HBA.
  rewrite !karl_get_transformed_points_fmap by done.
  rewrite bind_Return, karl_get_transformed_points_fmap by done. f_equal.
  rewrite <-list_fmap_compose. apply Forall_fmap_ext_1.
  eapply Forall_impl; [exact Hw|]. intros p [Hp Hp']. unfold compose.
  rewrite swap_xy_involutive. f_equal.
  by apply dot_4x4_projective.
Qed.

Lemma get_transformed_points_compose_projective_witness :
  (Karl.get_transformed_points (qcloud [(2, 4, 6)%Z])
     (qmatrix [[1; 0; 0; 0]; [0; 1; 0; 0]; [0; 0; 1; 0]; [0; 0; 0; 2]]%Z)
     ≫= λ out, Karl.get_transformed_points out (Spec.translation 1 0 0))
  = Karl.get_transformed_points (qcloud [(2, 4, 6)%Z])
      (qmatrix [[1; 0; 0; 2]; [0; 1; 0; 0]; [0; 0; 1; 0]; [0; 0; 0; 2]]%Z).
Proof.
  apply (get_transformed_points_compose_projective
    (qmatrix [[1; 0; 0; 0]; [0; 1; 0; 0]; [0; 0; 1; 0]; [0; 0; 0; 2]]%Z)
    (Spec.translation 1 0 0)).
  - split; [done|]. repeat constructor.
  - split; [done|]. repeat constructor.
  - compute_done.
  - repeat constructor; compute_done.
Defined.

Lemma translation_point normalize (tx ty tz : Z) (p : Qc * Qc * Qc) :
  Spec.swap_xy
    (Spec.apply_point normalize (Spec.translation tx ty tz) (Spec.swap_xy p))
  = (c0 p + Qc_of_Z ty, c1 p + Qc_of_Z tx, c2 p + Qc_of_Z tz)%Qc.
Proof.
  destruct p as [[a b] c].
  unfold Spec.apply_point, Spec.translation, Spec.mat_vec, Spec.homogenize,
    Spec.swap_xy, qmatrix, c0, c1, c2, Np.sum.
  simpl. rewrite Qc_of_Z_0, Qc_of_Z_1.
  destruct normalize; simpl; f_equal; [f_equal| |f_equal|];
    try field; try ring; done.
Qed.

Lemma is_4x4_translation tx ty tz : Spec.is_4x4 (Spec.translation tx ty tz).
Proof. split; [done|]. repeat constructor. Qed.

(** X15. Under the pure translation matrix by [(tx, ty, tz)] both
    applicators add [ty] to the first column of every row, [tx] to the
    second and [tz] to the third: the matrix acts on the rows with their
    first two columns exchanged. *)
Theorem get_transformed_points_translation (tx ty tz : Z)
    (keypoints : list (Qc * Qc * Qc)) :
  Utils.get_transformed_points keypoints (Spec.translation tx ty tz)
  = Return ((λ p, (c0 p + Qc_of_Z ty, c1 p + Qc_of_Z tx,
                   c2 p + Qc_of_Z tz)%Qc) <$> keypoints)
  ∧ Karl.get_transformed_points keypoints (Spec.translation tx ty tz)
    = Return ((λ p, (c0 p + Qc_of_Z ty, c1 p + Qc_of_Z tx,
                     c2 p + Qc_of_Z tz)%Qc) <$> keypoints).
Proof.
  rewrite utils_get_transformed_points_fmap, karl_get_transformed_points_fmap
    by apply is_4x4_translation.
  split; f_equal; apply list_fmap_ext; intros _ p _; apply translation_point.
Qed.

(** ** More on the nearest-match helper *)

Lemma sub2_replicate (m : list (Qc * Qc * Qc)) (x0 y0 : Qc) :
  zip_with (λ u v : Qc * Qc, (u.1 - v.1, u.2 - v.2)%Qc) (stored_xy <$> m)
    (replicate (length m) (x0, y0))
  = (λ v, (c0 v - x0, c1 v - y0)%Qc) <$> m.
Proof. induction m as [|v m IH]; simpl; [done|]. f_equal. exact IH. Qed.

(** X16. What [find_closest_3d_match] computes: on an empty cloud it
    raises ValueError; otherwise it compares the sum over all rows of the
    squared [x] differences with the sum of the squared [y] differences and
    returns row 1 when the second sum is strictly smaller (IndexError if the
    cloud has one row) and row 0 otherwise. *)
Theorem find_closest_3d_match_column_sums (x0 y0 : Qc)
    (matrix_3d : list (Qc * Qc * Qc)) :
  Utils.find_closest_3d_match x0 y0 matrix_3d
  = match matrix_3d with
    | [] => Raise ValueError
    | _ =>
        if decide
             (Np.sum ((λ v, (c1 v - y0) * (c1 v - y0)) <$> matrix_3d)
              < Np.sum ((λ v, (c0 v - x0) * (c0 v - x0)) <$> matrix_3d))%Qc
        then getitem matrix_3d 1
        else getitem matrix_3d 0
    end.
Proof.
  unfold Utils.find_closest_3d_match, Common.find_closest_3d_match.
  destruct matrix_3d as [|v m]; [done|].
  change (Np.sub2 (stored_xy <$> v :: m) (replicate (length (v :: m)) (x0, y0)))
    with (Return (zip_with (λ u v : Qc * Qc, (u.1 - v.1, u.2 - v.2)%Qc)
                    (stored_xy <$> v :: m)
                    (replicate (length (v :: m)) (x0, y0)))).
  rewrite bind_Return, sub2_replicate.
  unfold Np.square2, Np.sum_axis0, Np.argmin, Np.argmin_from.
  rewrite <-!list_fmap_compose. unfold compose. simpl.
  by destruct (decide _).
Qed.

(** ** More on the module-level loops *)


Lemma for_each_length {B C} (body : list C → B → result (list C))
    (l : list B) (a r : list C) :
  (∀ a x a', body a x = Return a' → length a' = S (length a)) →
  for_each body l a = Return r → length r = length l + length a.
Proof.
  intros Hbody. revert a. induction l as [|x l IH]; intros a; simpl.
  - by intros [= <-].
  - destruct (body a x) as [a'|e] eqn:Hax; simpl; [|done].
    intros Hr%IH. rewrite Hr, (Hbody _ _ _ Hax). lia.
Qed.


Section script_more.
Context {A : Type} `{EqDecision A}.
Context {Image Matrix : Type}.
Variable detect : Image → list (A * A).
Variable mathching_skimage : Image → Image → list (nat * nat).
Variable homo_rigid_transform_3D :
  list (A * A * A) → list (A * A * A) → Matrix.
Variable homo3d_get_transformed_points :
  list (A * A * A) → Matrix → list (A * A * A).
Implicit Types (v : list (A * A * A)) (vs : list (list (A * A * A))).
Implicit Types (hs : list Matrix) (cv2_imgs : list Image).

Lemma h_matrix_step_length cv2_imgs vs hs i hs' :
  Karl.h_matrix_step detect mathching_skimage homo_rigid_transform_3D
    cv2_imgs vs hs i = Return hs' →
  length hs' = S (length hs).
Proof.
  unfold Karl.h_matrix_step, mbind, result_bind. intros Hstep.
  repeat case_match; simplify_eq. rewrite length_app. simpl. lia.
Qed.

(** X17. When the H-matrix loop returns, it has produced one transform per
    consecutive pair of images, [len(cv2_imgs) - 1] in all. With fewer than
    two images the loop body never runs and the loop returns the empty
    list; with two images or more and fewer than two clouds the loop does not
    return: its first iteration cannot get past [input_voxels[0]] and
    [input_voxels[1]]. *)
Theorem h_matrix_loop_length cv2_imgs vs hs :
  (Karl.h_matrix_loop detect mathching_skimage homo_rigid_transform_3D
     cv2_imgs vs = Return hs →
   length hs = length cv2_imgs - 1)
  ∧ (length cv2_imgs < 2 →
     Karl.h_matrix_loop detect mathching_skimage homo_rigid_transform_3D
       cv2_imgs vs = Return [])
  ∧ (2 ≤ length cv2_imgs → length vs < 2 →
     Karl.h_matrix_loop detect mathching_skimage homo_rigid_transform_3D
       cv2_imgs vs ≠ Return hs).
Proof.
  unfold Karl.h_matrix_loop. split; [|split].
  - intros Hr%for_each_length.
    + rewrite Hr, length_seq. simpl. lia.
    + intros a x a'. apply h_matrix_step_length.
  - intros Hlen. by destruct cv2_imgs as [|? [|??]]; simpl in *; try lia.
  - intros Himgs Hvs. destruct cv2_imgs as [|i1 [|i2 imgs]]; simpl in *; try lia.
    destruct vs as [|v0 [|v1 vs]]; simpl in *; try lia; done.
Qed.





End script_more.


Lemma h_matrix_loop_length_witness :
  length [([(0, 0, 20)%Z], [(0, 0, 10)%Z]); ([(0, 0, 20)%Z], [(0, 0, 10)%Z])]
  = length [0; 1; 2] - 1.
Proof.
  apply (h_matrix_loop_length (λ _ : nat, [(0, 0)%Z]) (λ _ _ : nat, [(0, 0)])
           (λ source target : list (Z * Z * Z), (source, target)) [0; 1; 2]
           [[(0, 0, 10)%Z]; [(0, 0, 20)%Z]; [(0, 0, 30)%Z]]).
  reflexivity.
Defined.




(** ** The camera-model converter *)

Lemma zip_row_ld (cx fx cy fy : Qc) (zf : Z → Z) (yv : Z) (row : list Z) s :
  zip
    (zip
       ((λ u, u / fx)%Qc
          <$> zip_with Qcmult
                ((λ u, u - cx)%Qc
                   <$> (Qc_of_Z <$> (Z.of_nat <$> seq s (length row))))
                (Qc_of_Z <$> row))
       ((λ u, u / fy)%Qc
          <$> zip_with Qcmult
                ((λ u, u - cy)%Qc
                   <$> (Qc_of_Z <$> replicate (length row) yv))
                (Qc_of_Z <$> row)))
    (Qc_of_Z <$> (zf <$> row))
  = imap (λ x d, ((Qc_of_Z (Z.of_nat (s + x)) - cx) * Qc_of_Z d / fx,
                  (Qc_of_Z yv - cy) * Qc_of_Z d / fy,
                  Qc_of_Z (zf d))%Qc) row.
Proof.
  revert s. induction row as [|d row IH]; intros s; simpl; [done|].
  f_equal; [by rewrite Nat.add_0_r|].
  etransitivity; [apply (IH (S s))|].
  apply imap_ext. intros x d' _. simpl. by rewrite Nat.add_succ_r.
Qed.

Lemma zip_rows_ld (cx fx cy fy : Qc) (zf : Z → Z) w (rows : list (list Z)) s :
  Forall (λ row, length row = w) rows →
  Np.stack3
    (Np.div_scalar
       (Np.mul2
          (Np.sub_scalar
             (Np.as_float (replicate (length rows) (Z.of_nat <$> seq 0 w)))
             cx)
          (Np.as_float rows)) fx)
    (Np.div_scalar
       (Np.mul2
          (Np.sub_scalar
             (Np.as_float
                ((λ b : Z, replicate w b)
                   <$> (Z.of_nat <$> seq s (length rows))))
             cy)
          (Np.as_float rows)) fy)
    (Np.as_float ((λ row : list Z, zf <$> row) <$> rows))
  = imap (λ y row,
            imap (λ x d, ((Qc_of_Z (Z.of_nat x) - cx) * Qc_of_Z d / fx,
                          (Qc_of_Z (Z.of_nat (s + y)) - cy) * Qc_of_Z d / fy,
                          Qc_of_Z (zf d))%Qc) row) rows.
Proof.
  intros Hrect. revert s.
  induction Hrect as [|row rows Hrow Hrect IH]; intros s; [done|].
  unfold Np.stack3, Np.div_scalar, Np.mul2, Np.sub_scalar, Np.as_float in *.
  simpl. f_equal.
  - rewrite <-Hrow, Nat.add_0_r. apply (zip_row_ld cx fx cy fy zf _ row 0).
  - etransitivity; [apply (IH (S s))|].
    apply imap_ext. intros y row' _. simpl. by rewrite Nat.add_succ_r.
Qed.

Lemma fmap_bind_list {B C D} (f : C → D) (g : B → list C) (l : list B) :
  f <$> (l ≫= g) = l ≫= (λ b, f <$> g b).
Proof.
  induction l as [|b l IH]; csimpl; [done|]. by rewrite fmap_app, IH.
Qed.

Lemma depth_to_voxel_ld_scan img scale :
  Spec.rectangular img →
  Utils.depth_to_voxel_ld img scale =
  y ← seq 0 (length img);
  x ← seq 0 (Np.shape2 img).2;
  let d := nth x (nth y img []) 0%Z in
  let z := Spec.scaled_depth img scale y x in
  if decide (z ≠ 0%Z)
  then [((Qc_of_Z (Z.of_nat x) - Qc_of_Z 639 / Qc_of_Z 2)
           * Qc_of_Z d / Qc_of_Z 525,
         (Qc_of_Z (Z.of_nat y) - Qc_of_Z 479 / Qc_of_Z 2)
           * Qc_of_Z d / Qc_of_Z 525,
         Qc_of_Z z)%Qc]
  else [].
Proof.
  intros Hrect. unfold Utils.depth_to_voxel_ld, Np.meshgrid, Np.reshape_rows,
    Np.astype_int16, Np.mul_int16, Np.arange.
  set (w := (Np.shape2 img).2) in *.
  replace (Np.shape2 img).1 with (length img) by done.
  rewrite !length_fmap, !length_seq, fmap_rows_compose.
  rewrite (zip_rows_ld _ _ _ _ (λ d, Np.int16 (Np.int16 d * scale)) w img 0 Hrect).
  rewrite (imap_nth _ img []), concat_fmap_bind, filter_bind.
  apply bind_ext_in. intros y Hy%elem_of_seq.
  assert (length (nth y img []) = w) as Hlen.
  { destruct (lookup_lt_is_Some_2 img y) as [row Hrow]; [lia|].
    rewrite (nth_lookup_Some _ _ _ _ Hrow).
    by apply (Forall_lookup_1 _ _ _ _ Hrect Hrow). }
  rewrite (imap_nth _ _ 0%Z), Hlen, filter_fmap_bind.
  apply bind_ext_in. intros x _. unfold c2, Spec.scaled_depth. simpl.
  set (z := Np.int16 (Np.int16 (nth x (nth y img []) 0%Z) * scale)).
  assert (Qc_of_Z z ≠ 0%Qc ↔ z ≠ 0%Z) as Hiff.
  { rewrite <-Z2Qc_inj_0. by rewrite Z2Qc_inj_iff. }
  repeat case_decide; try done; exfalso; tauto.
Qed.

(** X20. For every rectangular integer depth image and integer scale that
    fits [int16], [depth_to_voxel_ld]
    keeps the pixels that [depth_to_voxel] keeps, in the same order: its
    result is the cloud of [depth_to_voxel] with each point projected through
    the camera model (first two columns) and its third column unchanged. *)
Theorem depth_to_voxel_ld_projects img scale :
  Spec.rectangular img →
  Spec.fits_int16 scale →
  Utils.depth_to_voxel_ld img scale
  = Spec.project_ld img <$> Utils.depth_to_voxel img scale
  ∧ c2 <$> Utils.depth_to_voxel_ld img scale
    = (λ p, Qc_of_Z (c2 p)) <$> Utils.depth_to_voxel img scale.
Proof.
  intros Hrect _.
  assert (Utils.depth_to_voxel_ld img scale
          = Spec.project_ld img <$> Utils.depth_to_voxel img scale) as Heq.
  { rewrite depth_to_voxel_ld_scan by done. unfold Utils.depth_to_voxel.
    rewrite depth_to_voxel_scan_pixels by done. unfold Spec.scan_pixels.
    rewrite fmap_bind_list. apply bind_ext_in. intros y _.
    rewrite fmap_bind_list. apply bind_ext_in. intros x _. simpl.
    case_decide; [|done]. simpl.
    unfold Spec.project_ld, c0, c1, c2. simpl. by rewrite !Nat2Z.id. }
  split; [done|]. rewrite Heq, <-list_fmap_compose. done.
Qed.

Lemma depth_to_voxel_ld_projects_witness :
  c2 <$> Utils.depth_to_voxel_ld [[0; 5]; [5; 0]]%Z 1
  = [Qc_of_Z 5; Qc_of_Z 5].
Proof.
  apply (depth_to_voxel_ld_projects [[0; 5]; [5; 0]]%Z 1).
  - repeat constructor.
  - unfold Spec.fits_int16; lia.
Defined.

(** ** The two applicators compared *)

Lemma affine_point A p :
  Spec.is_4x4 A → Spec.affine_row A →
  Spec.apply_point true A p = Spec.apply_point false A p.
Proof.
  intros HA. destruct_rows4 A HA. intros [= -> -> -> ->].
  destruct p as [[x y] z].
  unfold Spec.apply_point, Spec.mat_vec, Spec.homogenize, Np.sum, c0, c1, c2.
  simpl. f_equal; [f_equal|]; field; done.
Qed.

(** X21. On an affine 4x4 matrix (fourth row [0, 0, 0, 1]) the normalizing
    applicator of [karl-homo-toy-cars.py] and the applicator of [utils.py]
    return the same cloud: the divisor is 1. *)
Theorem get_transformed_points_agree_affine A keypoints :
  Spec.is_4x4 A → Spec.affine_row A →
  Karl.get_transformed_points keypoints A
  = Utils.get_transformed_points keypoints A.
Proof.
  intros HA Haff.
  rewrite karl_get_transformed_points_fmap, utils_get_transformed_points_fmap
    by done.
  f_equal. apply list_fmap_ext. intros _ p _. cbv beta.
  by rewrite affine_point.
Qed.

Lemma get_transformed_points_agree_affine_witness :
  Karl.get_transformed_points (qcloud [(3, 4, 5)%Z]) (Spec.translation 1 0 0)
  = Utils.get_transformed_points (qcloud [(3, 4, 5)%Z])
      (Spec.translation 1 0 0).
Proof.
  apply (get_transformed_points_agree_affine (Spec.translation 1 0 0)).
  - split; [done|]. repeat constructor.
  - unfold Spec.affine_row. simpl. by rewrite Qc_of_Z_0, Qc_of_Z_1.
Defined.

Lemma scaled_point (c : Qc) M p :
  Spec.is_4x4 M → c ≠ 0%Qc → Spec.hom_w M p ≠ 0%Qc →
  Spec.apply_point true ((λ row : list Qc, Qcmult c <$> row) <$> M) p
  = Spec.apply_point true M p.
Proof.
  intros HM. destruct_rows4 M HM. destruct p as [[x y] z].
  unfold Spec.hom_w, Spec.apply_point, Spec.mat_vec, Spec.homogenize, Np.sum,
    c0, c1, c2. simpl. intros Hc Hw.
  apply (f_equal2 pair); [apply (f_equal2 pair)|];
    (field;
     match goal with
     | |- ?W ≠ _ ∧ _ =>
         assert (W ≠ 0%Qc) as Hw2
           by (intros He; apply Hw; etransitivity; [|exact He]; ring);
         split; [exact Hw2|];
         intros He;
         assert ((c * W)%Qc = 0%Qc) as He'
           by (etransitivity; [|exact He]; ring);
         apply Qcmult_integral in He' as [?|?]; done
     end).
Qed.

(** X22. The normalizing applicator of [karl-homo-toy-cars.py] does not
    see a common nonzero factor of the matrix: for a 4x4 matrix [M] and
    [c] not zero, the matrix with every entry multiplied by [c] gives the
    result of [M], on every cloud whose rows have a nonzero fourth
    component under [M]. *)
Theorem get_transformed_points_scale_invariant (c : Qc) M keypoints :
  Spec.is_4x4 M → c ≠ 0%Qc →
  Forall (λ p, Spec.hom_w M (Spec.swap_xy p) ≠ 0%Qc) keypoints →
  Karl.get_transformed_points keypoints
    ((λ row : list Qc, Qcmult c <$> row) <$> M)
  = Karl.get_transformed_points keypoints M.
Proof.
  intros HM Hc Hw.
  rewrite !karl_get_transformed_points_fmap; [|done|].
  - f_equal. apply Forall_fmap_ext_1. eapply Forall_impl; [exact Hw|].
    intros p Hp. cbv beta. by rewrite scaled_point.
  - destruct HM as [Hlen Hrows]. split; [by rewrite length_fmap|].
    apply Forall_fmap. eapply Forall_impl; [exact Hrows|].
    intros row Hrow. simpl. by rewrite length_fmap.
Qed.

Lemma get_transformed_points_scale_invariant_witness :
  Karl.get_transformed_points (qcloud [(3, 4, 5)%Z])
    ((λ row : list Qc, Qcmult (Qc_of_Z 2) <$> row)
       <$> Spec.translation 1 0 0)
  = Karl.get_transformed_points (qcloud [(3, 4, 5)%Z])
      (Spec.translation 1 0 0).
Proof.
  apply (get_transformed_points_scale_invariant (Qc_of_Z 2)
           (Spec.translation 1 0 0)).
  - split; [done|]. repeat constructor.
  - compute_done.
  - repeat constructor. compute_done.
Defined.

(** ** The correspondences handed to the solver *)

Section correspondences.
Context {A : Type} `{EqDecision A}.
Context {Image : Type}.
Variable detect : Image → list (A * A).
Variable mathching_skimage : Image → Image → list (nat * nat).
Implicit Types (v : list (A * A * A)) (vs : list (list (A * A * A))).

Lemma match_loop_invariant (kps1_3d kps2_3d : list (A * A * A))
    (bf_matches : list (nat * nat)) (m_kps : list (A * A * A) * list (A * A * A)) :
  for_each
    (λ m_kps m,
       p1 ← getitem kps1_3d m.1;
       p2 ← getitem kps2_3d m.2;
       Return (m_kps.1 ++ [p1], m_kps.2 ++ [p2]))
    bf_matches ([], []) = Return m_kps →
  length m_kps.1 = length bf_matches
  ∧ length m_kps.2 = length bf_matches
  ∧ (∀ p, p ∈ m_kps.1 → p ∈ kps1_3d)
  ∧ (∀ p, p ∈ m_kps.2 → p ∈ kps2_3d).
Proof.
  intros Hrun.
  assert (∀ l acc r,
    for_each
      (λ m_kps m,
         p1 ← getitem kps1_3d m.1;
         p2 ← getitem kps2_3d m.2;
         Return (m_kps.1 ++ [p1], m_kps.2 ++ [p2])) l acc = Return r →
    length r.1 = length acc.1 + length l
    ∧ length r.2 = length acc.2 + length l
    ∧ (∀ p, p ∈ r.1 → p ∈ acc.1 ∨ p ∈ kps1_3d)
    ∧ (∀ p, p ∈ r.2 → p ∈ acc.2 ∨ p ∈ kps2_3d)) as Hgen.
  { induction l as [|m l IH]; intros acc r; simpl.
    - intros [= <-]. repeat split; auto; lia.
    - destruct (getitem kps1_3d m.1) as [p1|] eqn:H1; simpl; [|done].
      destruct (getitem kps2_3d m.2) as [p2|] eqn:H2; simpl; [|done].
      intros (Hl1 & Hl2 & Hin1 & Hin2)%IH. simpl in *.
      rewrite length_app in Hl1, Hl2. simpl in *.
      apply getitem_Return, list_elem_of_lookup_2 in H1, H2.
      split; [lia|]. split; [lia|]. split.
      + intros p [Hp|Hp]%Hin1; [|by right].
        apply elem_of_app in Hp as [Hp|Hp%list_elem_of_singleton];
          [by left|right; by subst].
      + intros p [Hp|Hp]%Hin2; [|by right].
        apply elem_of_app in Hp as [Hp|Hp%list_elem_of_singleton];
          [by left|right; by subst]. }
  destruct (Hgen _ _ _ Hrun) as (Hl1 & Hl2 & Hin1 & Hin2). simpl in *.
  split; [done|]. split; [done|]. split.
  - intros p [Hp|Hp]%Hin1; [by apply not_elem_of_nil in Hp|done].
  - intros p [Hp|Hp]%Hin2; [by apply not_elem_of_nil in Hp|done].
Qed.

(** X23. Run with a solver that hands back the two lists it is given
    (source, target), the H-matrix loop shows what it passes to
    [homo_rigid_transform_3D]: for every pair of images the two lists have
    the same length, every source point is a row of [input_voxels[1]] and
    every target point a row of [input_voxels[0]]. *)
Theorem h_matrix_loop_correspondences (cv2_imgs : list Image) v0 v1 vs
    (hs : list (list (A * A * A) * list (A * A * A))) :
  Karl.h_matrix_loop detect mathching_skimage
    (λ source target, (source, target)) cv2_imgs (v0 :: v1 :: vs)
  = Return hs →
  Forall (λ h, length h.1 = length h.2
               ∧ (∀ p, p ∈ h.1 → p ∈ v1) ∧ (∀ p, p ∈ h.2 → p ∈ v0)) hs.
Proof.
  unfold Karl.h_matrix_loop.
  apply for_each_invariant; [|constructor].
  intros acc i acc' Hstep Hacc.
  unfold Karl.h_matrix_step in Hstep. simpl in Hstep.
  destruct (getitem cv2_imgs i) as [img1|]; simpl in Hstep; [|done].
  destruct (getitem cv2_imgs (i + 1)) as [img2|]; simpl in Hstep; [|done].
  destruct (for_each _ _ _) as [m_kps|] eqn:Hm; simpl in Hstep; [|done].
  injection Hstep as <-.
  apply match_loop_invariant in Hm as (Hl1 & Hl2 & Hin1 & Hin2).
  apply Forall_app. split; [done|]. constructor; [|constructor]. simpl.
  split; [lia|]. split.
  - intros p Hp%Hin2. by eapply get_3d_kps_in.
  - intros p Hp%Hin1. by eapply get_3d_kps_in.
Qed.

End correspondences.

Lemma h_matrix_loop_correspondences_witness :
  Forall (λ h : list (Z * Z * Z) * list (Z * Z * Z),
            length h.1 = length h.2
            ∧ (∀ p, p ∈ h.1 → p ∈ [(0, 0, 20)%Z])
            ∧ (∀ p, p ∈ h.2 → p ∈ [(0, 0, 10)%Z]))
    [([(0, 0, 20)%Z], [(0, 0, 10)%Z]); ([(0, 0, 20)%Z], [(0, 0, 10)%Z])].
Proof.
  apply (h_matrix_loop_correspondences (λ _ : nat, [(0, 0)%Z])
           (λ _ _ : nat, [(0, 0)]) [0; 1; 2]
           [(0, 0, 10)%Z] [(0, 0, 20)%Z] [[(0, 0, 30)%Z]]).
  reflexivity.
Defined.
